(** * Message cache screen: a shallow embedding of [app/(tabs)/index.tsx]

    The screen keeps the last [MAX_MESSAGES] messages, newest first, in React
    state and mirrors them into AsyncStorage under one key.  This file embeds
    the three closures of the component ([loadMessagesFromStorage],
    [saveMessagesToStorage], [addMessage]) as computations over an explicit
    world, together with the ECMAScript built-ins they call
    ([String.prototype.trim], [Number.prototype.toString], [JSON.stringify],
    [JSON.parse], array spread and [Array.prototype.slice]). *)

From Stdlib Require Import ZArith NArith List String Ascii Lia Bool.
From stdpp Require Import base option list gmap.

Local Open Scope N_scope.

(** ** JavaScript strings

    A JavaScript string is a sequence of UTF-16 code units.  A code unit is
    kept as its number; [js] reads an ASCII literal. *)

Definition js (s : string) : list N :=
  map N_of_ascii (list_ascii_of_string s).

(** ToBoolean on a string: only the empty string is falsy. *)
Definition truthy (s : list N) : bool :=
  match s with
  | [] => false
  | _ :: _ => true
  end.

(** WhiteSpace and LineTerminator code points, the ones [trim] strips:
    TAB, LF, VT, FF, CR, SP, NBSP, U+1680, U+2000..U+200A, LS, PS, U+202F,
    U+205F, U+3000 and the byte order mark. *)
Definition isWhiteSpace (c : N) : bool :=
  (c =? 9) || (c =? 10) || (c =? 11) || (c =? 12) || (c =? 13) ||
  (c =? 32) || (c =? 160) || (c =? 5760) ||
  ((8192 <=? c) && (c <=? 8202)) ||
  (c =? 8232) || (c =? 8233) || (c =? 8239) || (c =? 8287) ||
  (c =? 12288) || (c =? 65279).

Fixpoint trimStart (s : list N) : list N :=
  match s with
  | [] => []
  | c :: r => if isWhiteSpace c then trimStart r else s
  end.

Definition trimEnd (s : list N) : list N :=
  rev (trimStart (rev s)).

(** [String.prototype.trim]. *)
Definition trim (s : list N) : list N :=
  trimEnd (trimStart s).

(** Surrogate halves, for iteration by code point. *)
Definition isLeadingSurrogate (c : N) : bool :=
  (55296 <=? c) && (c <=? 56319).

Definition isTrailingSurrogate (c : N) : bool :=
  (56320 <=? c) && (c <=? 57343).

(** The string iterator: one string per code point, a well-formed surrogate
    pair staying together. *)
Fixpoint codePoints (s : list N) : list (list N) :=
  match s with
  | [] => []
  | c :: r =>
      match r with
      | d :: r' =>
          if isLeadingSurrogate c && isTrailingSurrogate d
          then [c; d] :: codePoints r'
          else [c] :: codePoints r
      | [] => [[c]]
      end
  end.

(** ** Numbers

    [Date.now()] and the [timestamp] field are integral Numbers; an integral
    Number in the safe range is kept as its integer.  [Number_toString] is
    Number::toString in radix 10 on such a value: the decimal digits, with a
    minus sign in front of a negative one. *)

Definition MAX_SAFE_INTEGER : Z := 9007199254740991.

Definition isSafeInteger (z : Z) : bool :=
  ((- MAX_SAFE_INTEGER <=? z) && (z <=? MAX_SAFE_INTEGER))%Z.

Fixpoint digits_aux (fuel : nat) (n : N) (acc : list N) : list N :=
  match fuel with
  | O => acc
  | S f =>
      let acc' := (48 + n mod 10) :: acc in
      if n <? 10 then acc' else digits_aux f (n / 10) acc'
  end.

Definition digits (n : N) : list N :=
  digits_aux (S (N.to_nat (N.size n))) n [].

Definition isDigit (c : N) : bool := (48 <=? c) && (c <=? 57).

(** The number that a run of decimal digits writes. *)
Definition digitsValue (ds : list N) : N :=
  fold_left (fun acc d => acc * 10 + (d - 48)) ds 0.

Definition Number_toString (z : Z) : list N :=
  if (z <? 0)%Z then 45 :: digits (Z.to_N (- z)) else digits (Z.to_N z).

(** ** Values

    The values that [JSON.parse] can build and the component can hold.  A
    number literal with a fraction or an exponent, or an integer outside the
    safe range, denotes a double that is not computed here: [VReal] keeps its
    literal.  The property list of an object is kept in own-property-key
    order. *)

#[local] Set Warnings "-register-all".

Inductive JSValue : Type :=
| VNull
| VBoolean (b : bool)
| VNumber (z : Z)
| VReal (lit : list N)
| VString (s : list N)
| VArray (elems : list JSValue)
| VObject (props : list (list N * JSValue)).

Inductive JSError : Type :=
| SyntaxError
| TypeError
| StorageError (message : list N).

(** ** JSON

    [JSON.stringify] with one argument and [JSON.parse] with one argument, on
    the values above. *)

Module JSON.

(** *** Serialisation *)

Definition hexDigit (d : N) : N :=
  if d <? 10 then 48 + d else 87 + d.

(** The escape of a code unit as backslash, u and four lower-case hex
    digits. *)
Definition unicodeEscape (c : N) : list N :=
  [92; 117; hexDigit (c / 4096 mod 16); hexDigit (c / 256 mod 16);
   hexDigit (c / 16 mod 16); hexDigit (c mod 16)].

(** QuoteJSONString, one code unit that is not part of a surrogate pair:
    the short escapes for backspace, tab, line feed, form feed, carriage
    return, the double quote and the backslash; the long escape for the
    other control characters and for a lone surrogate; the code unit itself
    otherwise. *)
Definition quoteUnit (c : N) : list N :=
  if c =? 8 then [92; 98]
  else if c =? 9 then [92; 116]
  else if c =? 10 then [92; 110]
  else if c =? 12 then [92; 102]
  else if c =? 13 then [92; 114]
  else if c =? 34 then [92; 34]
  else if c =? 92 then [92; 92]
  else if (c <? 32) || isLeadingSurrogate c || isTrailingSurrogate c
       then unicodeEscape c
  else [c].

Fixpoint quoteBody (s : list N) : list N :=
  match s with
  | [] => []
  | c :: r =>
      match r with
      | d :: r' =>
          if isLeadingSurrogate c && isTrailingSurrogate d
          then c :: d :: quoteBody r'
          else quoteUnit c ++ quoteBody r
      | [] => quoteUnit c
      end
  end.

Definition quote (s : list N) : list N :=
  34 :: quoteBody s ++ [34].

(** The partial strings of an array or an object, separated by commas. *)
Fixpoint join (parts : list (list N)) : list N :=
  match parts with
  | [] => []
  | p :: r =>
      match r with
      | [] => p
      | _ :: _ => p ++ 44 :: join r
      end
  end.

(** SerializeJSONProperty, SerializeJSONArray and SerializeJSONObject with
    an empty gap: no white space, the partial strings joined by commas.  For
    a [VReal] the literal stands in for the decimal form of its double. *)
Fixpoint stringify (v : JSValue) : list N :=
  match v with
  | VNull => js "null"
  | VBoolean true => js "true"
  | VBoolean false => js "false"
  | VNumber z => Number_toString z
  | VReal lit => lit
  | VString s => quote s
  | VArray elems => 91 :: join (map stringify elems) ++ [93]
  | VObject props =>
      123 :: join (map (fun p => quote (fst p) ++ 58 :: stringify (snd p)) props)
          ++ [125]
  end.

(** *** Objects under construction

    CreateDataProperty on an ordinary object: an existing key keeps its place
    and takes the new value; a new array-index key goes among the index keys
    in ascending order, ahead of the string keys; any other new key goes
    last. *)

Fixpoint String_eqb (a b : list N) : bool :=
  match a, b with
  | [], [] => true
  | x :: a', y :: b' => (x =? y) && String_eqb a' b'
  | _, _ => false
  end.

(** An array index is a canonical numeric string below 2^32 - 1. *)
Definition arrayIndex (k : list N) : option N :=
  match k with
  | [] => None
  | c :: r =>
      if forallb isDigit k && implb (c =? 48) (match r with [] => true | _ => false end)
         && (digitsValue k <? 4294967295)
      then Some (digitsValue k) else None
  end.

Definition hasProperty (k : list N) (props : list (list N * JSValue)) : bool :=
  existsb (fun p => String_eqb (fst p) k) props.

Fixpoint insertIndexed (i : N) (k : list N) (v : JSValue)
    (props : list (list N * JSValue)) : list (list N * JSValue) :=
  match props with
  | [] => [(k, v)]
  | p :: r =>
      match arrayIndex (fst p) with
      | Some j => if i <? j then (k, v) :: props else p :: insertIndexed i k v r
      | None => (k, v) :: props
      end
  end.

Definition defineProperty (k : list N) (v : JSValue)
    (props : list (list N * JSValue)) : list (list N * JSValue) :=
  if hasProperty k props
  then map (fun p => if String_eqb (fst p) k then (fst p, v) else p) props
  else match arrayIndex k with
       | Some i => insertIndexed i k v props
       | None => props ++ [(k, v)]
       end.

(** *** Parsing

    The JSON grammar of ECMA-404.  Every parser takes the text still to read
    and gives the value read with the rest of the text, or [None] where
    [JSON.parse] throws a SyntaxError. *)

Definition isJSONWhiteSpace (c : N) : bool :=
  (c =? 9) || (c =? 10) || (c =? 13) || (c =? 32).

Fixpoint skipWhiteSpace (s : list N) : list N :=
  match s with
  | [] => []
  | c :: r => if isJSONWhiteSpace c then skipWhiteSpace r else s
  end.

Definition hexValue (c : N) : option N :=
  if isDigit c then Some (c - 48)
  else if (97 <=? c) && (c <=? 102) then Some (c - 87)
  else if (65 <=? c) && (c <=? 70) then Some (c - 55)
  else None.

(** The escape after a backslash that is one character long. *)
Definition simpleEscape (e : N) : option N :=
  if e =? 34 then Some 34
  else if e =? 92 then Some 92
  else if e =? 47 then Some 47
  else if e =? 98 then Some 8
  else if e =? 102 then Some 12
  else if e =? 110 then Some 10
  else if e =? 114 then Some 13
  else if e =? 116 then Some 9
  else None.

(** The characters of a string literal after its opening quote, up to and
    including the closing quote.  A raw control character is an error. *)
Fixpoint parseChars (s : list N) : option (list N * list N) :=
  match s with
  | [] => None
  | c :: r =>
      if c =? 34 then Some ([], r)
      else if c =? 92 then
        match r with
        | [] => None
        | e :: r1 =>
            if e =? 117 then
              match r1 with
              | h1 :: h2 :: h3 :: h4 :: r2 =>
                  a ← hexValue h1; b ← hexValue h2;
                  c' ← hexValue h3; d ← hexValue h4;
                  '(t, rest) ← parseChars r2;
                  Some ((a * 4096 + b * 256 + c' * 16 + d) :: t, rest)
              | _ => None
              end
            else
              x ← simpleEscape e;
              '(t, rest) ← parseChars r1;
              Some (x :: t, rest)
        end
      else if c <? 32 then None
      else '(t, rest) ← parseChars r; Some (c :: t, rest)
  end.

Fixpoint spanDigits (s : list N) : list N * list N :=
  match s with
  | [] => ([], [])
  | c :: r =>
      if isDigit c then let '(ds, rest) := spanDigits r in (c :: ds, rest)
      else ([], s)
  end.

(** The pieces of a number literal: an optional minus, an integer part
    without a leading zero, an optional fraction, an optional exponent.  Each
    gives the characters it read and the rest. *)
Definition parseSign (s : list N) : bool * list N :=
  match s with
  | c :: r => if c =? 45 then (true, r) else (false, s)
  | [] => (false, s)
  end.

Definition parseInt (s : list N) : option (list N * list N) :=
  match s with
  | c :: r =>
      if c =? 48 then Some ([48], r)
      else if isDigit c then Some (spanDigits s)
      else None
  | [] => None
  end.

Definition parseFrac (s : list N) : option (list N * list N) :=
  match s with
  | c :: r =>
      if c =? 46 then
        match spanDigits r with
        | ([], _) => None
        | (ds, rest) => Some (46 :: ds, rest)
        end
      else Some ([], s)
  | [] => Some ([], s)
  end.

Definition parseExp (s : list N) : option (list N * list N) :=
  match s with
  | c :: r =>
      if (c =? 101) || (c =? 69) then
        let '(sign, r1) :=
          match r with
          | g :: r' => if (g =? 43) || (g =? 45) then ([g], r') else ([], r)
          | [] => ([], r)
          end in
        match spanDigits r1 with
        | ([], _) => None
        | (ds, rest) => Some (c :: sign ++ ds, rest)
        end
      else Some ([], s)
  | [] => Some ([], s)
  end.

(** A literal that is a plain integer in the safe range is that integer;
    any other literal is kept as written. *)
Definition parseNumber (s : list N) : option (JSValue * list N) :=
  let '(neg, s1) := parseSign s in
  '(int, s2) ← parseInt s1;
  '(frac, s3) ← parseFrac s2;
  '(exp, s4) ← parseExp s3;
  let z := Z.of_N (digitsValue int) in
  let z := if neg then (- z)%Z else z in
  match frac, exp with
  | [], [] =>
      if isSafeInteger z
      then Some (VNumber z, s4)
      else Some (VReal ((if neg then [45] else []) ++ int), s4)
  | _, _ => Some (VReal ((if neg then [45] else []) ++ int ++ frac ++ exp), s4)
  end.

Fixpoint stripPrefix (p s : list N) : option (list N) :=
  match p, s with
  | [], _ => Some s
  | x :: p', y :: s' => if x =? y then stripPrefix p' s' else None
  | _ :: _, [] => None
  end.

Fixpoint parseValue (fuel : nat) (s : list N) : option (JSValue * list N) :=
  match fuel with
  | O => None
  | S f =>
      match skipWhiteSpace s with
      | [] => None
      | c :: r =>
          if c =? 123 then
            match skipWhiteSpace r with
            | c' :: r' =>
                if c' =? 125 then Some (VObject [], r') else parseMembers f r []
            | [] => None
            end
          else if c =? 91 then
            match skipWhiteSpace r with
            | c' :: r' =>
                if c' =? 93 then Some (VArray [], r') else parseElements f r []
            | [] => None
            end
          else if c =? 34 then
            '(str, rest) ← parseChars r; Some (VString str, rest)
          else if c =? 116 then
            rest ← stripPrefix (js "rue") r; Some (VBoolean true, rest)
          else if c =? 102 then
            rest ← stripPrefix (js "alse") r; Some (VBoolean false, rest)
          else if c =? 110 then
            rest ← stripPrefix (js "ull") r; Some (VNull, rest)
          else parseNumber (c :: r)
      end
  end
with parseElements (fuel : nat) (s : list N) (acc : list JSValue)
    : option (JSValue * list N) :=
  match fuel with
  | O => None
  | S f =>
      '(v, r) ← parseValue f s;
      match skipWhiteSpace r with
      | c :: r' =>
          if c =? 44 then parseElements f r' (v :: acc)
          else if c =? 93 then Some (VArray (rev (v :: acc)), r')
          else None
      | [] => None
      end
  end
with parseMembers (fuel : nat) (s : list N) (acc : list (list N * JSValue))
    : option (JSValue * list N) :=
  match fuel with
  | O => None
  | S f =>
      match skipWhiteSpace s with
      | c :: r =>
          if c =? 34 then
            '(k, r1) ← parseChars r;
            match skipWhiteSpace r1 with
            | c1 :: r2 =>
                if c1 =? 58 then
                  '(v, r3) ← parseValue f r2;
                  let acc' := defineProperty k v acc in
                  match skipWhiteSpace r3 with
                  | c3 :: r4 =>
                      if c3 =? 44 then parseMembers f r4 acc'
                      else if c3 =? 125 then Some (VObject acc', r4)
                      else None
                  | [] => None
                  end
                else None
            | [] => None
            end
          else None
      | [] => None
      end
  end.

(** [JSON.parse text]: one value, white space around it, nothing else. *)
Definition parse (text : list N) : option JSValue :=
  '(v, rest) ← parseValue (2 * length text + 2) text;
  match skipWhiteSpace rest with
  | [] => Some v
  | _ :: _ => None
  end.

End JSON.

(** ** Messages *)

(** Modelled from the spec: the declarations of [types/message] are not in
    the sources at hand.  A Message is a record with a string [id], a string
    [text] and a number [timestamp] (integer milliseconds since the epoch);
    a MessageCache is an array of Message. *)
Record Message : Type := {
  id : list N;
  text : list N;
  timestamp : Z
}.

(** The object that the literal [{ id: .., text: .., timestamp: .. }]
    creates. *)
Definition Message_value (m : Message) : JSValue :=
  VObject [(js "id", VString (id m));
           (js "text", VString (text m));
           (js "timestamp", VNumber (timestamp m))].

Definition MessageCache_value (ms : list Message) : JSValue :=
  VArray (map Message_value ms).

(** ** The external store

    [AsyncStorage] is a string-to-string store whose calls may reject.  Which
    calls reject is not the component's choice: the store carries it as an
    oracle over the call number.  Every [setItem] call is recorded, newest
    first. *)

Module AsyncStorage.

Record t : Type := {
  items : gmap (list N) (list N);
  getItem_rejects : nat -> option JSError;
  getItem_calls : nat;
  setItem_rejects : nat -> option JSError;
  setItem_calls : list (list N * list N)
}.

Definition getItem (key : list N) (st : t) : (JSError + option (list N)) * t :=
  let st' := {| items := items st;
                getItem_rejects := getItem_rejects st;
                getItem_calls := S (getItem_calls st);
                setItem_rejects := setItem_rejects st;
                setItem_calls := setItem_calls st |} in
  match getItem_rejects st (getItem_calls st) with
  | Some e => (inl e, st')
  | None => (inr (items st !! key), st')
  end.

Definition setItem (key value : list N) (st : t) : (JSError + unit) * t :=
  match setItem_rejects st (length (setItem_calls st)) with
  | Some e =>
      (inl e, {| items := items st;
                 getItem_rejects := getItem_rejects st;
                 getItem_calls := getItem_calls st;
                 setItem_rejects := setItem_rejects st;
                 setItem_calls := (key, value) :: setItem_calls st |})
  | None =>
      (inr tt, {| items := <[key := value]> (items st);
                  getItem_rejects := getItem_rejects st;
                  getItem_calls := getItem_calls st;
                  setItem_rejects := setItem_rejects st;
                  setItem_calls := (key, value) :: setItem_calls st |})
  end.

End AsyncStorage.

(** ** The world of the component

    The three [useState] cells, the store, the clock behind [Date.now()]
    (the [n]-th reading is [now n]), the lines written by [console.error]
    and the dialogs opened by [Alert.alert], newest first. *)

Record World : Type := {
  messages : JSValue;
  newMessage : list N;
  loading : bool;
  storage : AsyncStorage.t;
  now : nat -> Z;
  clock_reads : nat;
  console : list (list N * JSError);
  alerts : list (list N * list N)
}.

(** How a statement ends: normally with a value, or by throwing.  For an
    async function these are the resolved and the rejected promise.  The
    component runs one event handler at a time and renders between two user
    actions, so [await] is sequencing and a handler reads the state that the
    previous one left. *)
Inductive Completion (A : Type) : Type :=
| Normal (a : A)
| Throw (e : JSError).

Arguments Normal {A} a.
Arguments Throw {A} e.

Definition M (A : Type) : Type := World -> Completion A * World.

#[global] Instance M_ret : MRet M := fun A a w => (Normal a, w).

#[global] Instance M_bind : MBind M := fun A B f c w =>
  match c w with
  | (Normal a, w') => f a w'
  | (Throw e, w') => (Throw e, w')
  end.

Definition throw {A : Type} (e : JSError) : M A := fun w => (Throw e, w).

Definition try_catch {A : Type} (body : M A) (handler : JSError -> M A) : M A :=
  fun w =>
    match body w with
    | (Normal a, w') => (Normal a, w')
    | (Throw e, w') => handler e w'
    end.

Definition try_finally {A : Type} (body : M A) (finalizer : M unit) : M A :=
  fun w =>
    let '(c, w') := body w in
    match finalizer w' with
    | (Normal _, w'') => (c, w'')
    | (Throw e, w'') => (Throw e, w'')
    end.

Definition getMessages : M JSValue := fun w => (Normal (messages w), w).

Definition getNewMessage : M (list N) := fun w => (Normal (newMessage w), w).

Definition setMessages (v : JSValue) : M unit := fun w =>
  (Normal tt, {| messages := v; newMessage := newMessage w;
                 loading := loading w; storage := storage w; now := now w;
                 clock_reads := clock_reads w; console := console w;
                 alerts := alerts w |}).

Definition setNewMessage (s : list N) : M unit := fun w =>
  (Normal tt, {| messages := messages w; newMessage := s;
                 loading := loading w; storage := storage w; now := now w;
                 clock_reads := clock_reads w; console := console w;
                 alerts := alerts w |}).

Definition setLoading (b : bool) : M unit := fun w =>
  (Normal tt, {| messages := messages w; newMessage := newMessage w;
                 loading := b; storage := storage w; now := now w;
                 clock_reads := clock_reads w; console := console w;
                 alerts := alerts w |}).

Definition withStorage {A : Type}
    (op : AsyncStorage.t -> (JSError + A) * AsyncStorage.t) : M A := fun w =>
  let '(r, st) := op (storage w) in
  (match r with inl e => Throw e | inr a => Normal a end,
   {| messages := messages w; newMessage := newMessage w;
      loading := loading w; storage := st; now := now w;
      clock_reads := clock_reads w; console := console w;
      alerts := alerts w |}).

Definition Date_now : M Z := fun w =>
  (Normal (now w (clock_reads w)),
   {| messages := messages w; newMessage := newMessage w;
      loading := loading w; storage := storage w; now := now w;
      clock_reads := S (clock_reads w); console := console w;
      alerts := alerts w |}).

Definition console_error (label : list N) (error : JSError) : M unit := fun w =>
  (Normal tt, {| messages := messages w; newMessage := newMessage w;
                 loading := loading w; storage := storage w; now := now w;
                 clock_reads := clock_reads w;
                 console := (label, error) :: console w;
                 alerts := alerts w |}).

Definition Alert_alert (title message : list N) : M unit := fun w =>
  (Normal tt, {| messages := messages w; newMessage := newMessage w;
                 loading := loading w; storage := storage w; now := now w;
                 clock_reads := clock_reads w; console := console w;
                 alerts := (title, message) :: alerts w |}).

Definition JSON_parse (text : list N) : M JSValue :=
  match JSON.parse text with
  | Some v => mret v
  | None => throw SyntaxError
  end.

(** Array spread [...v]: the elements of an array, the code points of a
    string; any other value here is not iterable. *)
Definition spread (v : JSValue) : M (list JSValue) :=
  match v with
  | VArray elems => mret elems
  | VString s => mret (map VString (codePoints s))
  | _ => throw TypeError
  end.

(** [Array.prototype.slice] with two non-negative integer arguments. *)
Definition Array_slice (start stop : nat) (l : list JSValue) : list JSValue :=
  take (stop - start) (drop start l).

(** ** The component *)

Definition MESSAGES_STORAGE_KEY : list N := js "cached_messages".
Definition MAX_MESSAGES : nat := 5.

Definition loadMessagesFromStorage : M unit :=
  try_finally
    (try_catch
       (storedMessages ← withStorage (AsyncStorage.getItem MESSAGES_STORAGE_KEY);
        match storedMessages with
        | Some stored =>
            if truthy stored then
              parsedMessages ← JSON_parse stored;
              setMessages parsedMessages
            else mret tt
        | None => mret tt
        end)
       (fun error => console_error (js "Error loading messages:") error))
    (setLoading false).

Definition saveMessagesToStorage (messagesToSave : JSValue) : M unit :=
  try_catch
    (withStorage
       (AsyncStorage.setItem MESSAGES_STORAGE_KEY (JSON.stringify messagesToSave)))
    (fun error => console_error (js "Error saving messages:") error).

Definition addMessage : M unit :=
  newMessage ← getNewMessage;
  if negb (truthy (trim newMessage)) then
    Alert_alert (js "Error") (js "Please enter a message")
  else
    idNow ← Date_now;
    timestampNow ← Date_now;
    let message := {| id := Number_toString idNow;
                      text := trim newMessage;
                      timestamp := timestampNow |} in
    messages ← getMessages;
    rest ← spread messages;
    let updatedMessages :=
      VArray (Array_slice 0 MAX_MESSAGES (Message_value message :: rest)) in
    setMessages updatedMessages;;
    setNewMessage [];;
    saveMessagesToStorage updatedMessages.

(** [keyExtractor={(item) => item.id}]: the key under which the list shows
    an item.  Reading a property of [null] throws; a value without the
    property gives [undefined], here [None]. *)
Definition getProperty (k : list N) (props : list (list N * JSValue))
    : option JSValue :=
  snd <$> find (fun p => JSON.String_eqb (fst p) k) props.

Definition keyExtractor (item : JSValue) : Completion (option JSValue) :=
  match item with
  | VNull => Throw TypeError
  | VObject props => Normal (getProperty (js "id") props)
  | _ => Normal None
  end.

(** The state of a freshly mounted component: the initial values given to
    [useState]. *)
Definition mount (st : AsyncStorage.t) (clock : nat -> Z) : World :=
  {| messages := VArray []; newMessage := []; loading := true;
     storage := st; now := clock; clock_reads := 0;
     console := []; alerts := [] |}.

(** One user action: type [input] into the text field ([onChangeText]) and
    press Send ([onPress]). *)
Definition send (input : list N) : M unit :=
  setNewMessage input;; addMessage.

Definition sendAll (inputs : list (list N)) (w : World) : World :=
  fold_left (fun w input => snd (send input w)) inputs w.

(** [useEffect(() => { loadMessagesFromStorage(); }, [])]: the effect that
    runs once, after the first render of a mounted component. *)
Definition startup (st : AsyncStorage.t) (clock : nat -> Z) : World :=
  snd (loadMessagesFromStorage (mount st clock)).

(** ** Vocabulary of the statements *)

(** A character that ends a number literal: not a digit, not the point and
    not an exponent mark. *)
Definition endsNumber (c : N) : bool :=
  negb (isDigit c) && negb (c =? 46) && negb (c =? 101) && negb (c =? 69).

(** What [parseChars] gives for one more character [c] in front. *)
Definition consChar (c : N) (o : option (list N * list N))
    : option (list N * list N) :=
  match o with
  | Some (t, rest) => Some (c :: t, rest)
  | None => None
  end.

(** An input that [addMessage] accepts: not empty once trimmed. *)
Definition isValid (input : list N) : bool := truthy (trim input).

(** The message that [addMessage] builds from [input] in the world [w]: two
    readings of the clock, the first for the id. *)
Definition freshMessage (input : list N) (w : World) : Message :=
  {| id := Number_toString (now w (clock_reads w));
     text := trim input;
     timestamp := now w (S (clock_reads w)) |}.

(** The world after the three state updates of an accepted [addMessage],
    before the write to the store. *)
Definition inserted (input : list N) (old : list JSValue) (w : World) : World :=
  {| messages :=
       VArray (take MAX_MESSAGES (Message_value (freshMessage input w) :: old));
     newMessage := [];
     loading := loading w;
     storage := storage w;
     now := now w;
     clock_reads := S (S (clock_reads w));
     console := console w;
     alerts := alerts w |}.

(** The messages that a run of sends builds, oldest first, when the clock
    has been read [reads] times before: a rejected input builds none. *)
Fixpoint created (clock : nat -> Z) (reads : nat) (inputs : list (list N))
    : list Message :=
  match inputs with
  | [] => []
  | input :: r =>
      if isValid input
      then {| id := Number_toString (clock reads);
              text := trim input;
              timestamp := clock (S reads) |}
           :: created clock (S (S reads)) r
      else created clock reads r
  end.

Definition countValid (inputs : list (list N)) : nat :=
  length (List.filter isValid inputs).

(** The values that array spread accepts. *)
Definition iterable (v : JSValue) : bool :=
  match v with
  | VArray _ | VString _ => true
  | _ => false
  end.

Definition countInvalid (inputs : list (list N)) : nat :=
  length (List.filter (fun input => negb (isValid input)) inputs).

(** Timestamps that never increase along the list. *)
Fixpoint newestFirst (ts : list Z) : Prop :=
  match ts with
  | [] => True
  | t :: r => Forall (fun u => (u <= t)%Z) r /\ newestFirst r
  end.

(** Sample stores and clocks. *)
Definition emptyStore : AsyncStorage.t :=
  {| AsyncStorage.items := ∅;
     AsyncStorage.getItem_rejects := fun _ => None;
     AsyncStorage.getItem_calls := 0;
     AsyncStorage.setItem_rejects := fun _ => None;
     AsyncStorage.setItem_calls := [] |}.

(** A store that holds [value] under the key of the component. *)
Definition storeWith (value : list N) : AsyncStorage.t :=
  {| AsyncStorage.items := {[ MESSAGES_STORAGE_KEY := value ]};
     AsyncStorage.getItem_rejects := fun _ => None;
     AsyncStorage.getItem_calls := 0;
     AsyncStorage.setItem_rejects := fun _ => None;
     AsyncStorage.setItem_calls := [] |}.

(** An empty store whose every write rejects with [e]. *)
Definition readOnlyStore (e : JSError) : AsyncStorage.t :=
  {| AsyncStorage.items := ∅;
     AsyncStorage.getItem_rejects := fun _ => None;
     AsyncStorage.getItem_calls := 0;
     AsyncStorage.setItem_rejects := fun _ => Some e;
     AsyncStorage.setItem_calls := [] |}.

(** A store that holds [value] and whose every read rejects with [e]. *)
Definition unreadableStore (value : list N) (e : JSError) : AsyncStorage.t :=
  {| AsyncStorage.items := {[ MESSAGES_STORAGE_KEY := value ]};
     AsyncStorage.getItem_rejects := fun _ => Some e;
     AsyncStorage.getItem_calls := 0;
     AsyncStorage.setItem_rejects := fun _ => None;
     AsyncStorage.setItem_calls := [] |}.

(** A store that holds [value] and whose every write rejects with [e]. *)
Definition unwritableStore (value : list N) (e : JSError) : AsyncStorage.t :=
  {| AsyncStorage.items := {[ MESSAGES_STORAGE_KEY := value ]};
     AsyncStorage.getItem_rejects := fun _ => None;
     AsyncStorage.getItem_calls := 0;
     AsyncStorage.setItem_rejects := fun _ => Some e;
     AsyncStorage.setItem_calls := [] |}.

(** A store in which another part of the application keeps a setting. *)
Definition sharedStore : AsyncStorage.t :=
  {| AsyncStorage.items := {[ js "theme" := js "dark" ]};
     AsyncStorage.getItem_rejects := fun _ => None;
     AsyncStorage.getItem_calls := 0;
     AsyncStorage.setItem_rejects := fun _ => None;
     AsyncStorage.setItem_calls := [] |}.

(** A clock that advances by one millisecond at every reading, and one that
    stands still. *)
Definition ticking (t0 : Z) : nat -> Z := fun n => (t0 + Z.of_nat n)%Z.
Definition frozen (t0 : Z) : nat -> Z := fun _ => t0.

(** Messages like those of the test suite: [Message n], one minute apart. *)
Definition sampleMessage (n : Z) : Message :=
  {| id := Number_toString n;
     text := js "Message " ++ Number_toString n;
     timestamp := (1642680000000 + n * 60000)%Z |}.

(** A well-formed message: its timestamp is an integral Number.  The two
    strings may hold any code units. *)
Definition wellFormed (m : Message) : Prop :=
  isSafeInteger (timestamp m) = true.

(** * Facts about the built-ins *)

(** ** Decimal digits *)

Section Digits.

(** Linear arithmetic over the quotient and the remainder of [n] by ten. *)
Ltac lia_div10 n :=
  let Hdm := fresh in
  let Hub := fresh in
  pose proof (N.div_mod n 10 ltac:(discriminate)) as Hdm;
  pose proof (N.mod_upper_bound n 10 ltac:(discriminate)) as Hub;
  generalize dependent (n mod 10); generalize dependent (n / 10);
  intros; lia.

Lemma digitsValue_snoc ds d :
  digitsValue (ds ++ [d]) = digitsValue ds * 10 + (d - 48).
Proof. unfold digitsValue. now rewrite fold_left_app. Qed.

Lemma isDigit_of_mod n : isDigit (48 + n mod 10) = true.
Proof.
  unfold isDigit.
  apply andb_true_iff; split; apply N.leb_le; lia_div10 n.
Qed.

Lemma digits_aux_S f n acc :
  digits_aux (S f) n acc =
  if n <? 10 then (48 + n mod 10) :: acc
  else digits_aux f (n / 10) ((48 + n mod 10) :: acc).
Proof. reflexivity. Qed.

(** What the digit loop computes, for a fuel that covers the number. *)
Lemma digits_aux_spec f : forall n acc,
  n < 2 ^ N.of_nat f ->
  exists c ds,
    digits_aux (S f) n acc = (c :: ds) ++ acc /\
    forallb isDigit (c :: ds) = true /\
    digitsValue (c :: ds) = n /\
    (n <> 0 -> c <> 48).
Proof.
  induction f as [|f IH]; intros n acc Hn.
  - assert (n = 0) by (simpl in Hn; lia). subst n.
    exists 48, []. repeat split; try reflexivity. intros H; now elim H.
  - rewrite digits_aux_S. destruct (N.ltb_spec n 10) as [Hlt|Hge].
    + exists (48 + n mod 10), []. rewrite N.mod_small by lia.
      repeat split.
      * cbn [forallb]. rewrite andb_true_r. unfold isDigit.
        apply andb_true_iff; split; apply N.leb_le; lia.
      * unfold digitsValue. cbn [fold_left]. lia.
      * lia.
    + assert (Hdiv : n / 10 < 2 ^ N.of_nat f).
      { apply N.Div0.div_lt_upper_bound.
        rewrite Nat2N.inj_succ, N.pow_succ_r' in Hn. lia. }
      destruct (IH (n / 10) ((48 + n mod 10) :: acc) Hdiv)
        as (c & ds & Heq & Hall & Hval & Hhd).
      exists c, (ds ++ [48 + n mod 10]). repeat split.
      * rewrite Heq. cbn [app]. now rewrite <- app_assoc.
      * change (c :: ds ++ [48 + n mod 10]) with ((c :: ds) ++ [48 + n mod 10]).
        rewrite forallb_app, Hall. cbn [forallb].
        now rewrite isDigit_of_mod.
      * change (c :: ds ++ [48 + n mod 10]) with ((c :: ds) ++ [48 + n mod 10]).
        rewrite digitsValue_snoc, Hval. clear - n. lia_div10 n.
      * intros _. apply Hhd. clear - Hge. lia_div10 n.
Qed.

Lemma digits_spec n :
  exists c ds,
    digits n = c :: ds /\
    forallb isDigit (c :: ds) = true /\
    digitsValue (c :: ds) = n /\
    (n <> 0 -> c <> 48).
Proof.
  unfold digits.
  destruct (digits_aux_spec (N.to_nat (N.size n)) n []) as (c & ds & H & ?).
  - rewrite N2Nat.id. apply N.size_gt.
  - exists c, ds. now rewrite app_nil_r in H.
Qed.

Lemma digitsValue_digits n : digitsValue (digits n) = n.
Proof. destruct (digits_spec n) as (c & ds & -> & _ & H & _). exact H. Qed.

Lemma digits_inj n m : digits n = digits m -> n = m.
Proof.
  intros H. rewrite <- (digitsValue_digits n), <- (digitsValue_digits m).
  now rewrite H.
Qed.

(** The decimal form of an integer determines the integer. *)
Lemma Number_toString_inj x y :
  Number_toString x = Number_toString y -> x = y.
Proof.
  unfold Number_toString.
  destruct (Z.ltb_spec x 0) as [Hx|Hx], (Z.ltb_spec y 0) as [Hy|Hy];
    intros Heq.
  - injection Heq as Heq. apply digits_inj in Heq. lia.
  - destruct (digits_spec (Z.to_N y)) as (c & ds & E & Hd & _).
    rewrite E in Heq. injection Heq as <- _. discriminate Hd.
  - destruct (digits_spec (Z.to_N x)) as (c & ds & E & Hd & _).
    rewrite E in Heq. injection Heq as -> _. discriminate Hd.
  - apply digits_inj in Heq. lia.
Qed.

End Digits.

(** ** Reading back what [JSON.stringify] wrote *)

Section ParseStringify.

Import JSON.

Lemma spanDigits_app ds c r :
  forallb isDigit ds = true -> isDigit c = false ->
  spanDigits (ds ++ c :: r) = (ds, c :: r).
Proof.
  intros Hds Hc. induction ds as [|d ds IH]; cbn [spanDigits app].
  - now rewrite Hc.
  - cbn [forallb] in Hds. apply andb_true_iff in Hds as [Hd Hds].
    now rewrite Hd, IH.
Qed.

Lemma isDigit_bounds c : isDigit c = true -> 48 <= c <= 57.
Proof.
  unfold isDigit. intros H. apply andb_true_iff in H as [H1 H2].
  apply N.leb_le in H1, H2. lia.
Qed.

Lemma endsNumber_spec c :
  endsNumber c = true ->
  isDigit c = false /\ (c =? 46) = false /\ (c =? 101) = false /\ (c =? 69) = false.
Proof.
  unfold endsNumber. intros H.
  repeat (apply andb_true_iff in H as [H ?]).
  repeat split; now apply negb_true_iff.
Qed.

(** A digit run with no leading zero, followed by an end character, is read
    by [parseNumber] as the integer it writes. *)
Lemma parseNumber_digits (neg : bool) c0 ds c r :
  forallb isDigit (c0 :: ds) = true ->
  (c0 = 48 -> ds = []) ->
  endsNumber c = true ->
  let z := Z.of_N (digitsValue (c0 :: ds)) in
  let z := if neg then (- z)%Z else z in
  isSafeInteger z = true ->
  parseNumber ((if neg then [45] else []) ++ (c0 :: ds) ++ c :: r)
  = Some (VNumber z, c :: r).
Proof.
  intros Hds Hzero Hc z0 z Hsafe.
  apply endsNumber_spec in Hc as (Hc1 & Hc2 & Hc3 & Hc4).
  pose proof Hds as Hds'. cbn [forallb] in Hds'.
  apply andb_true_iff in Hds' as [Hc0 _].
  pose proof (isDigit_bounds _ Hc0) as Hb.
  assert (Hsign : parseSign ((if neg then [45] else []) ++ (c0 :: ds) ++ c :: r)
                  = (neg, (c0 :: ds) ++ c :: r)).
  { destruct neg; cbn; [reflexivity|].
    now rewrite (proj2 (N.eqb_neq c0 45)) by lia. }
  assert (Hint : parseInt ((c0 :: ds) ++ c :: r) = Some (c0 :: ds, c :: r)).
  { cbn [app parseInt]. destruct (N.eqb_spec c0 48) as [E|E].
    - rewrite (Hzero E). now subst c0.
    - rewrite Hc0. change (c0 :: ds ++ c :: r) with ((c0 :: ds) ++ c :: r).
      now rewrite spanDigits_app. }
  unfold parseNumber. rewrite Hsign, Hint. cbn [mbind option_bind].
  unfold parseFrac. rewrite Hc2. cbn [mbind option_bind].
  unfold parseExp. rewrite Hc3, Hc4. cbn [orb mbind option_bind].
  fold z0. fold z. now rewrite Hsafe.
Qed.

Lemma parseNumber_toString z c r :
  isSafeInteger z = true -> endsNumber c = true ->
  parseNumber (Number_toString z ++ c :: r) = Some (VNumber z, c :: r).
Proof.
  intros Hsafe Hc. unfold Number_toString.
  destruct (Z.ltb_spec z 0) as [Hz|Hz].
  - destruct (digits_spec (Z.to_N (- z))) as (c0 & ds & E & Hds & Hval & Hhd).
    rewrite E.
    pose proof (parseNumber_digits true c0 ds c r Hds) as H.
    cbn zeta in H. rewrite Hval in H.
    replace (- Z.of_N (Z.to_N (- z)))%Z with z in H by lia.
    apply H; auto. intros E0. exfalso. apply Hhd; [lia|exact E0].
  - destruct (N.eq_dec (Z.to_N z) 0) as [E0|NE].
    + assert (z = 0%Z) by lia. subst z.
      apply (parseNumber_digits false 48 [] c r); auto.
    + destruct (digits_spec (Z.to_N z)) as (c0 & ds & E & Hds & Hval & Hhd).
      rewrite E.
      pose proof (parseNumber_digits false c0 ds c r Hds) as H.
      cbn zeta in H. rewrite Hval in H.
      replace (Z.of_N (Z.to_N z)) with z in H by lia.
      apply H; auto. intros E0. exfalso. now apply Hhd.
Qed.

(** *** Strings *)

Lemma hexValue_hexDigit x : x < 16 -> hexValue (hexDigit x) = Some x.
Proof.
  intros Hx. unfold hexDigit, hexValue, isDigit.
  destruct (N.ltb_spec x 10).
  - replace (48 <=? 48 + x) with true by (symmetry; apply N.leb_le; lia).
    replace (48 + x <=? 57) with true by (symmetry; apply N.leb_le; lia).
    cbn. f_equal. lia.
  - replace (87 + x <=? 57) with false by (symmetry; apply N.leb_gt; lia).
    rewrite andb_false_r.
    replace (97 <=? 87 + x) with true by (symmetry; apply N.leb_le; lia).
    replace (87 + x <=? 102) with true by (symmetry; apply N.leb_le; lia).
    cbn. f_equal. lia.
Qed.

(** A code unit is the sum of its four hex digits. *)
Lemma nibbles c :
  c < 65536 ->
  (c / 4096 mod 16) * 4096 + (c / 256 mod 16) * 256
  + (c / 16 mod 16) * 16 + c mod 16 = c.
Proof.
  intros Hc.
  assert (E2 : c / 256 = c / 16 / 16) by now rewrite N.Div0.div_div.
  assert (E3 : c / 4096 = c / 16 / 16 / 16) by now rewrite !N.Div0.div_div.
  rewrite E2, E3.
  pose proof (N.div_mod c 16 ltac:(discriminate)) as H1.
  pose proof (N.mod_upper_bound c 16 ltac:(discriminate)) as B1.
  pose proof (N.div_mod (c / 16) 16 ltac:(discriminate)) as H2.
  pose proof (N.mod_upper_bound (c / 16) 16 ltac:(discriminate)) as B2.
  pose proof (N.div_mod (c / 16 / 16) 16 ltac:(discriminate)) as H3.
  pose proof (N.mod_upper_bound (c / 16 / 16) 16 ltac:(discriminate)) as B3.
  assert (H4 : c / 16 / 16 / 16 < 16).
  { rewrite !N.Div0.div_div. now apply N.Div0.div_lt_upper_bound. }
  rewrite (N.mod_small _ _ H4).
  generalize dependent (c / 16 / 16 / 16). intros q3.
  generalize dependent (c / 16 / 16 mod 16). intros r3.
  generalize dependent (c / 16 / 16). intros q2.
  generalize dependent (c / 16 mod 16). intros r2.
  generalize dependent (c / 16). intros q1.
  generalize dependent (c mod 16). intros r1.
  intros. lia.
Qed.

Lemma parseChars_unicodeEscape c t :
  c < 65536 ->
  parseChars (unicodeEscape c ++ t) = consChar c (parseChars t).
Proof.
  intros Hc. unfold unicodeEscape. cbn [app parseChars N.eqb Pos.eqb].
  rewrite !hexValue_hexDigit by (apply N.mod_upper_bound; discriminate).
  cbn [mbind option_bind]. rewrite nibbles by exact Hc.
  now destruct (parseChars t) as [[? ?]|].
Qed.

Lemma parseChars_raw c t :
  32 <= c -> c <> 34 -> c <> 92 ->
  parseChars (c :: t) = consChar c (parseChars t).
Proof.
  intros H1 H2 H3. cbn [parseChars].
  rewrite (proj2 (N.eqb_neq c 34)), (proj2 (N.eqb_neq c 92)) by assumption.
  replace (c <? 32) with false by (symmetry; apply N.ltb_ge; lia).
  now destruct (parseChars t) as [[? ?]|].
Qed.

Lemma surrogate_bounds c :
  isLeadingSurrogate c || isTrailingSurrogate c = true -> 55296 <= c <= 57343.
Proof.
  unfold isLeadingSurrogate, isTrailingSurrogate. intros H.
  apply orb_true_iff in H as [H|H]; apply andb_true_iff in H as [H1 H2];
    apply N.leb_le in H1, H2; lia.
Qed.

Lemma parseChars_quoteUnit c t :
  parseChars (quoteUnit c ++ t) = consChar c (parseChars t).
Proof.
  unfold quoteUnit.
  repeat match goal with
         | |- context [?a =? ?b] =>
             destruct (N.eqb_spec a b);
             [subst; cbn; now destruct (parseChars t) as [[? ?]|] |]
         end.
  destruct (N.ltb_spec c 32) as [Hlt|Hge]; cbn [orb].
  - apply parseChars_unicodeEscape. lia.
  - destruct (isLeadingSurrogate c || isTrailingSurrogate c) eqn:Hs.
    + apply parseChars_unicodeEscape.
      pose proof (surrogate_bounds c Hs). lia.
    + now apply parseChars_raw.
Qed.

Lemma quoteBody_cons2 c d r :
  quoteBody (c :: d :: r) =
  if isLeadingSurrogate c && isTrailingSurrogate d
  then c :: d :: quoteBody r
  else quoteUnit c ++ quoteBody (d :: r).
Proof. reflexivity. Qed.

Lemma parseChars_quoteBody_le n : forall s rest,
  (length s <= n)%nat ->
  parseChars (quoteBody s ++ 34 :: rest) = Some (s, rest).
Proof.
  induction n as [|n IH]; intros s rest Hlen.
  - destruct s; [reflexivity | cbn in Hlen; lia].
  - destruct s as [|c [|d r]]; [reflexivity | |].
    + cbn [quoteBody]. now rewrite parseChars_quoteUnit.
    + rewrite quoteBody_cons2.
      destruct (isLeadingSurrogate c && isTrailingSurrogate d) eqn:Hp.
      * apply andb_true_iff in Hp as [Hl Ht].
        pose proof (surrogate_bounds c ltac:(now rewrite Hl)).
        pose proof (surrogate_bounds d ltac:(rewrite Ht; apply orb_true_r)).
        cbn [app]. rewrite parseChars_raw by lia.
        rewrite parseChars_raw by lia.
        rewrite IH by (cbn in Hlen; lia). reflexivity.
      * rewrite <- app_assoc, parseChars_quoteUnit.
        rewrite IH by (cbn in Hlen |- *; lia). reflexivity.
Qed.

(** A quoted string, read from just after its opening quote. *)
Lemma parseChars_quoteBody s rest :
  parseChars (quoteBody s ++ 34 :: rest) = Some (s, rest).
Proof. now apply (parseChars_quoteBody_le (length s)). Qed.

(** *** Values *)

Lemma parseValue_string f s rest :
  parseValue (S f) (quote s ++ rest) = Some (VString s, rest).
Proof.
  unfold quote. cbn [app]. rewrite <- app_assoc. cbn [app].
  cbn [parseValue skipWhiteSpace isJSONWhiteSpace N.eqb Pos.eqb orb].
  now rewrite parseChars_quoteBody.
Qed.

(** A value that starts with a minus or a digit is a number literal. *)
Lemma parseValue_number_head f c0 s :
  c0 = 45 \/ isDigit c0 = true ->
  parseValue (S f) (c0 :: s) = parseNumber (c0 :: s).
Proof.
  intros H.
  assert (Hb : c0 = 45 \/ 48 <= c0 <= 57)
    by (destruct H as [H|H]; [now left | right; now apply isDigit_bounds]).
  cbn [parseValue skipWhiteSpace]. unfold isJSONWhiteSpace.
  rewrite (proj2 (N.eqb_neq c0 9)), (proj2 (N.eqb_neq c0 10)),
    (proj2 (N.eqb_neq c0 13)), (proj2 (N.eqb_neq c0 32)) by lia.
  cbn [orb].
  now rewrite (proj2 (N.eqb_neq c0 123)), (proj2 (N.eqb_neq c0 91)),
    (proj2 (N.eqb_neq c0 34)), (proj2 (N.eqb_neq c0 116)),
    (proj2 (N.eqb_neq c0 102)), (proj2 (N.eqb_neq c0 110)) by lia.
Qed.

Lemma Number_toString_head z :
  exists c0 t, Number_toString z = c0 :: t /\ (c0 = 45 \/ isDigit c0 = true).
Proof.
  unfold Number_toString. destruct (z <? 0)%Z.
  - eexists _, _. split; [reflexivity | now left].
  - destruct (digits_spec (Z.to_N z)) as (c & ds & E & Hd & _).
    exists c, ds. split; [exact E|]. right.
    cbn [forallb] in Hd. now apply andb_true_iff in Hd as [? _].
Qed.

Lemma parseValue_number f z c r :
  isSafeInteger z = true -> endsNumber c = true ->
  parseValue (S f) (Number_toString z ++ c :: r) = Some (VNumber z, c :: r).
Proof.
  intros Hz Hc. rewrite <- (parseNumber_toString z c r Hz Hc).
  destruct (Number_toString_head z) as (c0 & t & -> & H).
  cbn [app]. now apply parseValue_number_head.
Qed.

(** One member of an object: the key, the colon and a value that is read
    back as [v]; what follows decides between the next member and the end. *)
Lemma parseMembers_step f k sv tail v acc :
  parseValue f (sv ++ tail) = Some (v, tail) ->
  parseMembers (S f) (quote k ++ 58 :: sv ++ tail) acc =
  match skipWhiteSpace tail with
  | c :: r =>
      if c =? 44 then parseMembers f r (defineProperty k v acc)
      else if c =? 125 then Some (VObject (defineProperty k v acc), r)
      else None
  | [] => None
  end.
Proof.
  intros Hv. unfold quote. cbn [app]. rewrite <- app_assoc. cbn [app].
  cbn [parseMembers skipWhiteSpace isJSONWhiteSpace N.eqb Pos.eqb orb].
  rewrite parseChars_quoteBody. cbn [mbind option_bind].
  cbn [skipWhiteSpace isJSONWhiteSpace N.eqb Pos.eqb orb].
  rewrite Hv. reflexivity.
Qed.

Lemma stringify_Message m :
  stringify (Message_value m) =
  123 :: quote (js "id") ++ 58 :: quote (id m) ++
  44 :: quote (js "text") ++ 58 :: quote (text m) ++
  44 :: quote (js "timestamp") ++ 58 :: Number_toString (timestamp m) ++ [125].
Proof.
  unfold Message_value. cbn [stringify map join fst snd].
  repeat (rewrite <- app_assoc; cbn [app]). reflexivity.
Qed.

Lemma defineProperty_Message i t ts :
  defineProperty (js "timestamp") ts
    (defineProperty (js "text") t (defineProperty (js "id") i []))
  = [(js "id", i); (js "text", t); (js "timestamp", ts)].
Proof. reflexivity. Qed.

(** A message object is read back, whatever follows it. *)
Lemma parseValue_Message f m rest :
  isSafeInteger (timestamp m) = true ->
  parseValue (5 + f) (stringify (Message_value m) ++ rest)
  = Some (Message_value m, rest).
Proof.
  intros Hts. rewrite stringify_Message.
  change (5 + f)%nat with (S (S (S (S (S f))))).
  cbn [app]. repeat (rewrite <- app_assoc; cbn [app]).
  remember (S (S (S (S f)))) as f4 eqn:Ef4.
  cbn [parseValue skipWhiteSpace isJSONWhiteSpace N.eqb Pos.eqb orb].
  unfold quote at 1. cbn [app].
  cbn [skipWhiteSpace isJSONWhiteSpace N.eqb Pos.eqb orb].
  change (34 :: quoteBody (js "id") ++ [34]) with (quote (js "id")).
  subst f4.
  rewrite (parseMembers_step _ (js "id") (quote (id m)) _ (VString (id m)))
    by apply parseValue_string.
  cbn [skipWhiteSpace isJSONWhiteSpace N.eqb Pos.eqb orb].
  rewrite (parseMembers_step _ (js "text") (quote (text m)) _ (VString (text m)))
    by apply parseValue_string.
  cbn [skipWhiteSpace isJSONWhiteSpace N.eqb Pos.eqb orb].
  rewrite (parseMembers_step _ (js "timestamp") (Number_toString (timestamp m)) _
             (VNumber (timestamp m)))
    by (apply parseValue_number; [exact Hts | reflexivity]).
  cbn [skipWhiteSpace isJSONWhiteSpace N.eqb Pos.eqb orb].
  now rewrite defineProperty_Message.
Qed.

(** *** Arrays of messages *)

Lemma stringify_MessageCache ms :
  stringify (MessageCache_value ms) =
  91 :: join (map stringify (map Message_value ms)) ++ [93].
Proof. reflexivity. Qed.

Lemma join_cons2 p q r : join (p :: q :: r) = p ++ 44 :: join (q :: r).
Proof. reflexivity. Qed.

Lemma join_Messages_head m ms :
  exists t, join (map stringify (map Message_value (m :: ms))) = 123 :: t.
Proof.
  destruct ms as [|m' ms]; cbn [map].
  - cbn [join]. rewrite stringify_Message. eexists. reflexivity.
  - rewrite join_cons2, stringify_Message. eexists. reflexivity.
Qed.

Lemma length_join_Messages ms :
  (length ms <= length (join (map stringify (map Message_value ms))))%nat.
Proof.
  induction ms as [|m [|m' ms] IH].
  - cbn. lia.
  - cbn [map join]. rewrite stringify_Message. cbn [length]. lia.
  - cbn [map]. rewrite join_cons2. cbn [map] in IH.
    rewrite length_app. cbn [length] in *. lia.
Qed.

Lemma parseElements_S f s acc :
  parseElements (S f) s acc =
  match parseValue f s with
  | Some (v, r) =>
      match skipWhiteSpace r with
      | c :: r' =>
          if c =? 44 then parseElements f r' (v :: acc)
          else if c =? 93 then Some (VArray (rev (v :: acc)), r')
          else None
      | [] => None
      end
  | None => None
  end.
Proof. cbn [parseElements mbind option_bind]. now destruct (parseValue f s) as [[? ?]|]. Qed.

(** The elements of a non-empty array of messages, up to the closing
    bracket, with enough fuel for the elements that remain. *)
Lemma parseElements_Messages ms : forall m f acc rest,
  Forall wellFormed (m :: ms) ->
  parseElements (length ms + 6 + f)
    (join (map stringify (map Message_value (m :: ms))) ++ 93 :: rest) acc
  = Some (VArray (rev acc ++ map Message_value (m :: ms)), rest).
Proof.
  induction ms as [|m' ms IH]; intros m f acc rest Hwf.
  - apply Forall_cons_1 in Hwf as [Hm _].
    change (length [] + 6 + f)%nat with (S (5 + f)).
    rewrite parseElements_S. cbn [map join].
    rewrite (parseValue_Message f m (93 :: rest) Hm).
    cbn [skipWhiteSpace isJSONWhiteSpace N.eqb Pos.eqb orb rev].
    reflexivity.
  - apply Forall_cons_1 in Hwf as [Hm Hrest].
    change (length (m' :: ms) + 6 + f)%nat with (S (length ms + 6 + f)).
    rewrite parseElements_S.
    change (map stringify (map Message_value (m :: m' :: ms)))
      with (stringify (Message_value m)
            :: map stringify (map Message_value (m' :: ms))).
    remember (map stringify (map Message_value (m' :: ms))) as tl eqn:Etl.
    destruct tl as [|q tl']; [discriminate Etl|].
    rewrite join_cons2, <- app_assoc. cbn [app].
    replace (length ms + 6 + f)%nat with (5 + (length ms + 1 + f))%nat by lia.
    rewrite (parseValue_Message _ m _ Hm).
    cbn [skipWhiteSpace isJSONWhiteSpace N.eqb Pos.eqb orb].
    replace (5 + (length ms + 1 + f))%nat with (length ms + 6 + f)%nat by lia.
    rewrite Etl, (IH m' f (Message_value m :: acc) rest Hrest).
    cbn [rev map]. now rewrite <- app_assoc.
Qed.

Lemma parseValue_array f t rest :
  parseValue (S f) (91 :: (123 :: t) ++ rest)
  = parseElements f ((123 :: t) ++ rest) [].
Proof. reflexivity. Qed.

(** [JSON.parse] undoes [JSON.stringify] on an array of well-formed
    messages. *)
Lemma parse_stringify_MessageCache ms :
  Forall wellFormed ms ->
  parse (stringify (MessageCache_value ms)) = Some (MessageCache_value ms).
Proof.
  intros Hwf. destruct ms as [|m ms]; [reflexivity|].
  unfold parse. rewrite stringify_MessageCache.
  pose proof (length_join_Messages (m :: ms)) as Hlen.
  destruct (join_Messages_head m ms) as [t Et].
  pose proof (parseElements_Messages ms m) as Hel.
  rewrite Et in Hlen, Hel |- *.
  set (text := 91 :: (123 :: t) ++ [93]).
  set (F := (2 * length text + 2)%nat).
  assert (HF : F = S (length ms + 6 + (F - 7 - length ms))).
  { subst F text. cbn [length] in Hlen |- *. rewrite length_app.
    cbn [length]. lia. }
  rewrite HF. subst text.
  rewrite parseValue_array, (Hel _ [] [] Hwf).
  reflexivity.
Qed.

End ParseStringify.

(** ** Fuel

    The fuel of [parseValue] bounds the nesting, not the input: a value that
    is read with some fuel is read, with the same result, with any fuel that
    is at least the number of characters it takes.  [JSON.parse] gives more
    than the length of the text, so it fails only on a text that no fuel
    would parse. *)

Section Fuel.

Import JSON.

Lemma skipWhiteSpace_length s : (length (skipWhiteSpace s) <= length s)%nat.
Proof.
  induction s as [|c r IH]; cbn [skipWhiteSpace length]; [lia|].
  destruct (isJSONWhiteSpace c); cbn [length]; lia.
Qed.

Lemma spanDigits_length s : forall ds r,
  spanDigits s = (ds, r) -> (length r <= length s)%nat.
Proof.
  induction s as [|c s IH]; intros ds r H; cbn [spanDigits] in H.
  - injection H as <- <-. lia.
  - destruct (isDigit c).
    + destruct (spanDigits s) as [ds' r'] eqn:E. injection H as <- <-.
      specialize (IH _ _ eq_refl). cbn [length]. lia.
    + injection H as <- <-. lia.
Qed.

Lemma parseChars_length n : forall s t r,
  (length s <= n)%nat -> parseChars s = Some (t, r) ->
  (length r < length s)%nat.
Proof.
  induction n as [|n IH]; intros s t r Hn H.
  - destruct s; [discriminate H | cbn in Hn; lia].
  - destruct s as [|c s]; [discriminate H|]. cbn [parseChars] in H.
    cbn [length] in Hn |- *.
    destruct (c =? 34); [injection H as <- <-; lia|].
    destruct (c =? 92).
    + destruct s as [|e r1]; [discriminate H|].
      destruct (e =? 117).
      * destruct r1 as [|h1 [|h2 [|h3 [|h4 r2]]]]; try discriminate H.
        unfold mbind, option_bind in H.
        destruct (hexValue h1), (hexValue h2), (hexValue h3), (hexValue h4);
          try discriminate H.
        destruct (parseChars r2) as [[t' r']|] eqn:E; [|discriminate H].
        injection H as <- <-.
        apply IH in E; cbn [length] in *; lia.
      * unfold mbind, option_bind in H.
        destruct (simpleEscape e); [|discriminate H].
        destruct (parseChars r1) as [[t' r']|] eqn:E; [|discriminate H].
        injection H as <- <-.
        apply IH in E; cbn [length] in *; lia.
    + destruct (c <? 32); [discriminate H|].
      unfold mbind, option_bind in H.
      destruct (parseChars s) as [[t' r']|] eqn:E; [|discriminate H].
      injection H as <- <-. apply IH in E; lia.
Qed.

Lemma parseNumber_length s v r :
  parseNumber s = Some (v, r) -> (length r < length s)%nat.
Proof.
  unfold parseNumber. intros H.
  destruct (parseSign s) as [neg s1] eqn:Es.
  assert (H1 : (length s1 <= length s)%nat).
  { unfold parseSign in Es. destruct s as [|c s']; [injection Es as <- <-; lia|].
    destruct (c =? 45); injection Es as <- <-; cbn [length]; lia. }
  unfold mbind, option_bind in H.
  destruct (parseInt s1) as [[int s2]|] eqn:Ei; [|discriminate H].
  assert (H2 : (length s2 < length s1)%nat).
  { unfold parseInt in Ei. destruct s1 as [|c s1']; [discriminate Ei|].
    destruct (c =? 48); [injection Ei as <- <-; cbn [length]; lia|].
    destruct (isDigit c) eqn:Ed; [|discriminate Ei].
    injection Ei as Ei. cbn [spanDigits] in Ei. rewrite Ed in Ei.
    destruct (spanDigits s1') as [ds' r'] eqn:E. injection Ei as <- <-.
    apply spanDigits_length in E. cbn [length]. lia. }
  destruct (parseFrac s2) as [[frac s3]|] eqn:Ef; [|discriminate H].
  assert (H3 : (length s3 <= length s2)%nat).
  { unfold parseFrac in Ef. destruct s2 as [|c s2']; [injection Ef as <- <-; lia|].
    destruct (c =? 46); [|injection Ef as <- <-; lia].
    destruct (spanDigits s2') as [[|d ds] r'] eqn:E; [discriminate Ef|].
    injection Ef as <- <-. apply spanDigits_length in E. cbn [length]. lia. }
  destruct (parseExp s3) as [[exp s4]|] eqn:Ee; [|discriminate H].
  assert (H4 : (length s4 <= length s3)%nat).
  { unfold parseExp in Ee. destruct s3 as [|c s3']; [injection Ee as <- <-; lia|].
    destruct ((c =? 101) || (c =? 69)); [|injection Ee as <- <-; lia].
    destruct s3' as [|g r0].
    - destruct (spanDigits []) as [[|d ds] r'] eqn:E; [discriminate Ee|].
      injection Ee as <- <-. apply spanDigits_length in E. cbn [length] in *. lia.
    - destruct ((g =? 43) || (g =? 45)).
      + destruct (spanDigits r0) as [[|d ds] r'] eqn:E; [discriminate Ee|].
        injection Ee as <- <-. apply spanDigits_length in E. cbn [length]. lia.
      + destruct (spanDigits (g :: r0)) as [[|d ds] r'] eqn:E; [discriminate Ee|].
        injection Ee as <- <-. apply spanDigits_length in E.
        cbn [length] in *. lia. }
  assert (r = s4).
  { destruct frac, exp; try (injection H as <- <-; reflexivity).
    destruct (isSafeInteger _); injection H as <- <-; reflexivity. }
  subst r. lia.
Qed.

Lemma stripPrefix_length p : forall s r,
  stripPrefix p s = Some r -> (length r <= length s)%nat.
Proof.
  induction p as [|x p IH]; intros s r H; cbn [stripPrefix] in H.
  - injection H as <-. lia.
  - destruct s as [|y s]; [discriminate H|].
    destruct (x =? y); [|discriminate H].
    apply IH in H. cbn [length]. lia.
Qed.

(** Replay, with another fuel, the branches already taken. *)
Ltac replay :=
  let f := fresh "f" in
  let Hf := fresh "Hf" in
  intros [|f] Hf; [exfalso; cbn [length] in *; lia|];
  cbn [parseValue parseElements parseMembers];
  repeat match goal with
         | E : ?x = _ |- context [match ?x with _ => _ end] => rewrite E
         | E : ?x = _ |- context [if ?x then _ else _] => rewrite E
         | E : ?x = _ |- context [mbind _ ?x] => rewrite E
         end;
  cbn [mbind option_bind].

Lemma fuel_adequate f :
  (forall s v r,
     parseValue f s = Some (v, r) ->
     (length r < length s)%nat /\
     forall f', (length s - length r <= f')%nat ->
                parseValue f' s = Some (v, r)) /\
  (forall s acc v r,
     parseElements f s acc = Some (v, r) ->
     (length r < length s)%nat /\
     forall f', (length s - length r <= f')%nat ->
                parseElements f' s acc = Some (v, r)) /\
  (forall s acc v r,
     parseMembers f s acc = Some (v, r) ->
     (length r < length s)%nat /\
     forall f', (length s - length r <= f')%nat ->
                parseMembers f' s acc = Some (v, r)).
Proof.
  induction f as [|f (IHv & IHe & IHm)];
    [repeat split; intros; discriminate|].
  split; [|split].
  - intros s v r H. cbn [parseValue] in H.
    pose proof (skipWhiteSpace_length s) as Hws.
    destruct (skipWhiteSpace s) as [|c t] eqn:Ews; [discriminate H|].
    cbn [length] in Hws.
    pose proof (skipWhiteSpace_length t) as Hwt.
    destruct (c =? 123) eqn:E1.
    { destruct (skipWhiteSpace t) as [|c' t'] eqn:Ewt; [discriminate H|].
      cbn [length] in Hwt.
      destruct (c' =? 125) eqn:E2.
      - injection H as <- <-. split; [lia|]. replay. reflexivity.
      - apply IHm in H as [Hl Hr]. split; [lia|]. replay. apply Hr. lia. }
    destruct (c =? 91) eqn:E3.
    { destruct (skipWhiteSpace t) as [|c' t'] eqn:Ewt; [discriminate H|].
      cbn [length] in Hwt.
      destruct (c' =? 93) eqn:E4.
      - injection H as <- <-. split; [lia|]. replay. reflexivity.
      - apply IHe in H as [Hl Hr]. split; [lia|]. replay. apply Hr. lia. }
    destruct (c =? 34) eqn:E5.
    { unfold mbind, option_bind in H.
      destruct (parseChars t) as [[str rest]|] eqn:Ec; [|discriminate H].
      injection H as <- <-.
      apply (parseChars_length (length t)) in Ec as Hl; [|lia].
      split; [lia|]. replay. reflexivity. }
    destruct (c =? 116) eqn:E6.
    { unfold mbind, option_bind in H.
      destruct (stripPrefix (js "rue") t) as [rest|] eqn:Ep; [|discriminate H].
      injection H as <- <-. apply stripPrefix_length in Ep as Hl.
      split; [lia|]. replay. reflexivity. }
    destruct (c =? 102) eqn:E7.
    { unfold mbind, option_bind in H.
      destruct (stripPrefix (js "alse") t) as [rest|] eqn:Ep; [|discriminate H].
      injection H as <- <-. apply stripPrefix_length in Ep as Hl.
      split; [lia|]. replay. reflexivity. }
    destruct (c =? 110) eqn:E8.
    { unfold mbind, option_bind in H.
      destruct (stripPrefix (js "ull") t) as [rest|] eqn:Ep; [|discriminate H].
      injection H as <- <-. apply stripPrefix_length in Ep as Hl.
      split; [lia|]. replay. reflexivity. }
    apply parseNumber_length in H as Hl. cbn [length] in Hl.
    split; [lia|]. replay. exact H.
  - intros s acc v r H. cbn [parseElements] in H.
    unfold mbind, option_bind in H.
    destruct (parseValue f s) as [[v1 r1]|] eqn:Ev; [|discriminate H].
    apply IHv in Ev as [Hl1 Hr1].
    pose proof (skipWhiteSpace_length r1) as Hws.
    destruct (skipWhiteSpace r1) as [|c r2] eqn:Ews; [discriminate H|].
    cbn [length] in Hws.
    destruct (c =? 44) eqn:E1.
    { apply IHe in H as [Hl Hr]. split; [lia|].
      intros [|f'] Hf'; [exfalso; lia|]. cbn [parseElements].
      rewrite (Hr1 f') by lia. cbn [mbind option_bind].
      rewrite Ews, E1. apply Hr. lia. }
    destruct (c =? 93) eqn:E2; [|discriminate H].
    injection H as <- <-. split; [lia|].
    intros [|f'] Hf'; [exfalso; lia|]. cbn [parseElements].
    rewrite (Hr1 f') by lia. cbn [mbind option_bind].
    now rewrite Ews, E1, E2.
  - intros s acc v r H. cbn [parseMembers] in H.
    pose proof (skipWhiteSpace_length s) as Hws.
    destruct (skipWhiteSpace s) as [|c t] eqn:Ews; [discriminate H|].
    cbn [length] in Hws.
    destruct (c =? 34) eqn:E1; [|discriminate H].
    unfold mbind, option_bind in H.
    destruct (parseChars t) as [[k r1]|] eqn:Ec; [|discriminate H].
    apply (parseChars_length (length t)) in Ec as Hl1; [|lia].
    pose proof (skipWhiteSpace_length r1) as Hw1.
    destruct (skipWhiteSpace r1) as [|c1 r2] eqn:Ew1; [discriminate H|].
    cbn [length] in Hw1.
    destruct (c1 =? 58) eqn:E2; [|discriminate H].
    destruct (parseValue f r2) as [[v1 r3]|] eqn:Ev; [|discriminate H].
    apply IHv in Ev as [Hl3 Hr3].
    pose proof (skipWhiteSpace_length r3) as Hw3.
    destruct (skipWhiteSpace r3) as [|c3 r4] eqn:Ew3; [discriminate H|].
    cbn [length] in Hw3.
    destruct (c3 =? 44) eqn:E3.
    { apply IHm in H as [Hl Hr]. split; [lia|].
      intros [|f'] Hf'; [exfalso; lia|]. cbn [parseMembers].
      rewrite Ews, E1, Ec. cbn [mbind option_bind]. rewrite Ew1, E2.
      rewrite (Hr3 f') by lia. cbn [mbind option_bind].
      rewrite Ew3, E3. apply Hr. lia. }
    destruct (c3 =? 125) eqn:E4; [|discriminate H].
    injection H as <- <-. split; [lia|].
    intros [|f'] Hf'; [exfalso; lia|]. cbn [parseMembers].
    rewrite Ews, E1, Ec. cbn [mbind option_bind]. rewrite Ew1, E2.
    rewrite (Hr3 f') by lia. cbn [mbind option_bind].
    now rewrite Ew3, E3, E4.
Qed.

(** The fuel that [JSON.parse] gives is enough: a text that parses with some
    fuel parses, to the same value, with the fuel of [parse]. *)
Lemma parse_fuel_enough text f v rest :
  parseValue f text = Some (v, rest) ->
  parseValue (2 * length text + 2) text = Some (v, rest).
Proof.
  intros H. destruct (fuel_adequate f) as (Hv & _).
  apply Hv in H as [_ H]. apply H. lia.
Qed.

End Fuel.

(** * Facts about the component *)

Section Component.

#[local] Arguments truthy : simpl never.
#[local] Arguments trim : simpl never.
#[local] Arguments Number_toString : simpl never.
#[local] Arguments JSON.stringify : simpl never.
#[local] Arguments JSON.parse : simpl never.
#[local] Arguments firstn : simpl never.

(** ** Saving *)

(** [saveMessagesToStorage] always completes normally; it calls [setItem]
    once and touches nothing but the store and the console. *)
Lemma saveMessagesToStorage_spec v w :
  let st := storage w in
  let w' := snd (saveMessagesToStorage v w) in
  fst (saveMessagesToStorage v w) = Normal tt /\
  messages w' = messages w /\ newMessage w' = newMessage w /\
  loading w' = loading w /\ now w' = now w /\
  clock_reads w' = clock_reads w /\ alerts w' = alerts w /\
  AsyncStorage.setItem_calls (storage w')
    = (MESSAGES_STORAGE_KEY, JSON.stringify v) :: AsyncStorage.setItem_calls st /\
  AsyncStorage.setItem_rejects (storage w') = AsyncStorage.setItem_rejects st /\
  AsyncStorage.getItem_rejects (storage w') = AsyncStorage.getItem_rejects st /\
  AsyncStorage.getItem_calls (storage w') = AsyncStorage.getItem_calls st /\
  match AsyncStorage.setItem_rejects st (length (AsyncStorage.setItem_calls st)) with
  | Some e =>
      AsyncStorage.items (storage w') = AsyncStorage.items st /\
      console w' = (js "Error saving messages:", e) :: console w
  | None =>
      AsyncStorage.items (storage w')
        = <[MESSAGES_STORAGE_KEY := JSON.stringify v]> (AsyncStorage.items st) /\
      console w' = console w
  end.
Proof.
  unfold saveMessagesToStorage, try_catch, withStorage, AsyncStorage.setItem,
    console_error.
  destruct (AsyncStorage.setItem_rejects (storage w)
              (length (AsyncStorage.setItem_calls (storage w)))) as [e|];
    cbn; repeat split; reflexivity.
Qed.

(** ** Adding *)

Lemma Array_slice_0 n l : Array_slice 0 n l = take n l.
Proof. unfold Array_slice. now rewrite Nat.sub_0_r. Qed.

(** A rejected input: one dialog, nothing else. *)
Lemma send_invalid input w :
  isValid input = false ->
  send input w =
  (Normal tt,
   {| messages := messages w; newMessage := input; loading := loading w;
      storage := storage w; now := now w; clock_reads := clock_reads w;
      console := console w;
      alerts := (js "Error", js "Please enter a message") :: alerts w |}).
Proof.
  intros H. unfold isValid in H.
  unfold send, addMessage, setNewMessage, getNewMessage, Alert_alert,
    mbind, M_bind. cbn. rewrite H. reflexivity.
Qed.

(** An accepted input on an array: the three state updates, then the
    write. *)
Lemma send_valid input old w :
  isValid input = true -> messages w = VArray old ->
  send input w =
  saveMessagesToStorage (messages (inserted input old w)) (inserted input old w).
Proof.
  intros H Hm. unfold isValid in H.
  unfold send, addMessage, setNewMessage, getNewMessage, getMessages, spread,
    setMessages, Date_now, mbind, M_bind, mret, M_ret. cbn.
  rewrite H, Hm. cbn. rewrite Array_slice_0. reflexivity.
Qed.

Lemma send_valid_world input old w :
  isValid input = true -> messages w = VArray old ->
  let w' := snd (send input w) in
  fst (send input w) = Normal tt /\
  messages w' =
    VArray (take MAX_MESSAGES (Message_value (freshMessage input w) :: old)) /\
  newMessage w' = [] /\ now w' = now w /\
  clock_reads w' = S (S (clock_reads w)).
Proof.
  intros H Hm. cbn zeta. rewrite (send_valid input old w H Hm).
  pose proof (saveMessagesToStorage_spec
                (messages (inserted input old w)) (inserted input old w)) as S.
  cbn zeta in S. destruct S as (S1 & S2 & S3 & _ & S5 & S6 & _).
  rewrite S1, S2, S3, S5, S6. repeat split; reflexivity.
Qed.

Lemma send_invalid_world input w :
  isValid input = false ->
  let w' := snd (send input w) in
  messages w' = messages w /\ now w' = now w /\ clock_reads w' = clock_reads w.
Proof. intros H. rewrite (send_invalid input w H). now cbn. Qed.

(** ** Runs of sends *)

Lemma sendAll_cons input inputs w :
  sendAll (input :: inputs) w = sendAll inputs (snd (send input w)).
Proof. reflexivity. Qed.

Lemma take_app_take {A : Type} (a b : list A) : forall n m,
  (n <= m)%nat -> take n (a ++ take m b) = take n (a ++ b).
Proof.
  induction a as [|x a IH]; intros n m Hnm; cbn [app].
  - rewrite take_take. f_equal. lia.
  - destruct n as [|n]; [reflexivity|]. rewrite !firstn_cons. f_equal.
    apply IH. lia.
Qed.

(** After a run of sends on a cache within the bound, the cache holds the
    newest messages first, then what is left of the old ones. *)
Lemma sendAll_messages inputs : forall old w,
  messages w = VArray old -> (length old <= MAX_MESSAGES)%nat ->
  messages (sendAll inputs w) =
  VArray (take MAX_MESSAGES
            (rev (map Message_value (created (now w) (clock_reads w) inputs))
             ++ old)).
Proof.
  induction inputs as [|input inputs IH]; intros old w Hm Hlen.
  - cbn. rewrite Hm. f_equal. symmetry. now apply firstn_all2.
  - rewrite sendAll_cons. cbn [created].
    destruct (isValid input) eqn:Hv.
    + destruct (send_valid_world input old w Hv Hm) as (_ & Hm' & _ & Hn & Hr).
      rewrite (IH _ _ Hm') by (rewrite length_take; lia).
      rewrite Hn, Hr. f_equal. cbn [map rev]. rewrite <- app_assoc.
      cbn [app]. apply take_app_take. lia.
    + destruct (send_invalid_world input w Hv) as (Hm' & Hn & Hr).
      rewrite (IH old _ (eq_trans Hm' Hm) Hlen), Hn, Hr. reflexivity.
Qed.

Lemma length_created clock inputs : forall reads,
  length (created clock reads inputs) = countValid inputs.
Proof.
  unfold countValid.
  induction inputs as [|input inputs IH]; intros reads; [reflexivity|].
  cbn [created List.filter]. destruct (isValid input); cbn [length];
    now rewrite IH.
Qed.

(** ** Loading *)

(** [loadMessagesFromStorage] always completes normally and clears the
    loading flag; the messages change only when the read resolves with a
    non-empty string that parses, and then they are the parsed value. *)
Lemma loadMessagesFromStorage_spec w :
  let st := storage w in
  let w' := snd (loadMessagesFromStorage w) in
  fst (loadMessagesFromStorage w) = Normal tt /\
  loading w' = false /\
  AsyncStorage.items (storage w') = AsyncStorage.items st /\
  AsyncStorage.setItem_calls (storage w') = AsyncStorage.setItem_calls st /\
  match AsyncStorage.getItem_rejects st (AsyncStorage.getItem_calls st) with
  | Some e =>
      messages w' = messages w /\
      console w' = (js "Error loading messages:", e) :: console w
  | None =>
      match AsyncStorage.items st !! MESSAGES_STORAGE_KEY with
      | Some stored =>
          if truthy stored then
            match JSON.parse stored with
            | Some v => messages w' = v /\ console w' = console w
            | None =>
                messages w' = messages w /\
                console w' =
                  (js "Error loading messages:", SyntaxError) :: console w
            end
          else messages w' = messages w /\ console w' = console w
      | None => messages w' = messages w /\ console w' = console w
      end
  end.
Proof.
  unfold loadMessagesFromStorage, try_finally, try_catch, withStorage,
    AsyncStorage.getItem, JSON_parse, console_error, setLoading, setMessages,
    throw, mbind, M_bind, mret, M_ret.
  destruct (AsyncStorage.getItem_rejects (storage w)
              (AsyncStorage.getItem_calls (storage w))) as [e|];
    [cbn; repeat split; reflexivity|].
  destruct (AsyncStorage.items (storage w) !! MESSAGES_STORAGE_KEY) as [stored|];
    [|cbn; repeat split; reflexivity].
  cbn. destruct (truthy stored); [|cbn; repeat split; reflexivity].
  destruct (JSON.parse stored); cbn; repeat split; reflexivity.
Qed.

Lemma load_parsed w stored v :
  AsyncStorage.getItem_rejects (storage w) (AsyncStorage.getItem_calls (storage w))
    = None ->
  AsyncStorage.items (storage w) !! MESSAGES_STORAGE_KEY = Some stored ->
  JSON.parse stored = Some v ->
  messages (snd (loadMessagesFromStorage w)) = v.
Proof.
  intros Hr Hs Hp.
  assert (Ht : truthy stored = true)
    by (destruct stored; [discriminate Hp | reflexivity]).
  pose proof (loadMessagesFromStorage_spec w) as L. cbn zeta in L.
  rewrite Hr, Hs, Ht, Hp in L. now destruct L as (_ & _ & _ & _ & ? & _).
Qed.

Lemma load_fallback w :
  (AsyncStorage.items (storage w) !! MESSAGES_STORAGE_KEY = None \/
   exists stored,
     AsyncStorage.items (storage w) !! MESSAGES_STORAGE_KEY = Some stored /\
     JSON.parse stored = None) ->
  messages (snd (loadMessagesFromStorage w)) = messages w.
Proof.
  intros H.
  pose proof (loadMessagesFromStorage_spec w) as L. cbn zeta in L.
  destruct L as (_ & _ & _ & _ & L).
  destruct (AsyncStorage.getItem_rejects _ _); [now destruct L|].
  destruct H as [H | (stored & H & Hp)]; rewrite H in L.
  - now destruct L.
  - rewrite Hp in L. destruct (truthy stored); now destruct L.
Qed.

(** ** Keys *)

Lemma sendAll_from_empty inputs w :
  messages w = VArray [] ->
  messages (sendAll inputs w) =
  MessageCache_value
    (take MAX_MESSAGES (rev (created (now w) (clock_reads w) inputs))).
Proof.
  intros Hm. rewrite (sendAll_messages inputs [] w Hm) by (cbn; lia).
  unfold MessageCache_value. now rewrite app_nil_r, <- map_rev, firstn_map.
Qed.

Lemma keyExtractor_Message m :
  keyExtractor (Message_value m) = Normal (Some (VString (id m))).
Proof. reflexivity. Qed.

(** The ids of the messages built by a run of valid inputs are the decimal
    forms of every second clock reading. *)
Lemma created_ids clock inputs : forall reads,
  Forall (fun input => isValid input = true) inputs ->
  map id (created clock reads inputs) =
  map (fun i => Number_toString (clock (reads + 2 * i)%nat))
      (seq 0 (length inputs)).
Proof.
  induction inputs as [|input inputs IH]; intros reads Hall; [reflexivity|].
  apply Forall_cons_1 in Hall as [Hv Hall].
  cbn [created length seq map]. rewrite Hv. cbn [map id]. f_equal.
  - f_equal. f_equal. lia.
  - rewrite (IH _ Hall), <- seq_shift, map_map.
    apply map_ext. intros i. f_equal. f_equal. lia.
Qed.

Lemma NoDup_take_rev {A : Type} (l : list A) n :
  NoDup l -> NoDup (take n (rev l)).
Proof.
  intros H. apply (sublist_NoDup _ (rev l)); [|apply sublist_take].
  now rewrite <- (Permutation_rev l).
Qed.

End Component.

(** * Facts about runs of the component *)

Section Runs.

#[local] Arguments truthy : simpl never.
#[local] Arguments trim : simpl never.
#[local] Arguments Number_toString : simpl never.
#[local] Arguments JSON.stringify : simpl never.
#[local] Arguments JSON.parse : simpl never.
#[local] Arguments firstn : simpl never.

(** ** What a send leaves alone *)

(** An accepted input on a value that cannot be spread: the clock has been
    read twice, the handler throws, nothing else has changed. *)
Lemma send_not_iterable input w :
  isValid input = true ->
  match messages w with
  | VArray _ | VString _ => False
  | _ => True
  end ->
  send input w =
  (Throw TypeError,
   {| messages := messages w; newMessage := input; loading := loading w;
      storage := storage w; now := now w;
      clock_reads := S (S (clock_reads w)); console := console w;
      alerts := alerts w |}).
Proof.
  intros H Hm. unfold isValid in H.
  unfold send, addMessage, setNewMessage, getNewMessage, getMessages, spread,
    setMessages, Date_now, throw, mbind, M_bind, mret, M_ret. cbn.
  rewrite H. cbn. destruct (messages w); try contradiction; reflexivity.
Qed.

(** An accepted input on a string: its code points are spread. *)
Lemma send_valid_string input str w :
  isValid input = true -> messages w = VString str ->
  send input w =
  saveMessagesToStorage
    (messages (inserted input (map VString (codePoints str)) w))
    (inserted input (map VString (codePoints str)) w).
Proof.
  intros H Hm. unfold isValid in H.
  unfold send, addMessage, setNewMessage, getNewMessage, getMessages, spread,
    setMessages, Date_now, mbind, M_bind, mret, M_ret. cbn.
  rewrite H, Hm. cbn. rewrite Array_slice_0. reflexivity.
Qed.

(** The three ways a send can go. *)
Lemma send_cases input w :
  (isValid input = false) \/
  (isValid input = true /\
   exists rest,
     send input w =
     saveMessagesToStorage (messages (inserted input rest w))
       (inserted input rest w)) \/
  (isValid input = true /\
   send input w =
   (Throw TypeError,
    {| messages := messages w; newMessage := input; loading := loading w;
       storage := storage w; now := now w;
       clock_reads := S (S (clock_reads w)); console := console w;
       alerts := alerts w |})).
Proof.
  destruct (isValid input) eqn:Hv; [right | now left].
  pose proof (send_not_iterable input w Hv) as Hn.
  destruct (messages w) eqn:Hm;
    try (right; split; [reflexivity|]; apply Hn; exact I).
  - left. split; [reflexivity|]. eexists.
    apply send_valid_string; [exact Hv | exact Hm].
  - left. split; [reflexivity|]. eexists.
    apply send_valid; [exact Hv | exact Hm].
Qed.

(** Whatever the input and the cache, a send leaves the loading flag, the
    clock function, the dialogs' history apart from one more dialog for a
    rejected input, the read side of the store and every other key alone. *)
Lemma send_frame input w :
  let w' := snd (send input w) in
  loading w' = loading w /\ now w' = now w /\
  AsyncStorage.getItem_rejects (storage w')
    = AsyncStorage.getItem_rejects (storage w) /\
  AsyncStorage.getItem_calls (storage w')
    = AsyncStorage.getItem_calls (storage w) /\
  AsyncStorage.setItem_rejects (storage w')
    = AsyncStorage.setItem_rejects (storage w) /\
  (forall k, k <> MESSAGES_STORAGE_KEY ->
     AsyncStorage.items (storage w') !! k = AsyncStorage.items (storage w) !! k) /\
  alerts w' =
    (if isValid input then alerts w
     else (js "Error", js "Please enter a message") :: alerts w).
Proof.
  cbn zeta.
  destruct (send_cases input w) as [Hv | [(Hv & rest & E) | (Hv & E)]].
  - rewrite (send_invalid input w Hv), Hv. cbn. repeat split; reflexivity.
  - rewrite E, Hv.
    pose proof (saveMessagesToStorage_spec
                  (messages (inserted input rest w)) (inserted input rest w)) as S.
    cbn zeta in S.
    change (storage (inserted input rest w)) with (storage w) in S.
    destruct S as (_ & _ & _ & S4 & S5 & _ & S7 & _ & S9 & S10 & S11 & S12).
    rewrite S4, S5, S7, S9, S10, S11. repeat split; try reflexivity.
    intros k Hk.
    destruct (AsyncStorage.setItem_rejects _ _); destruct S12 as [-> _];
      [reflexivity|]. now apply lookup_insert_ne.
  - rewrite E, Hv. cbn. repeat split; reflexivity.
Qed.

(** ** One send on an array *)

Lemma send_array_step input old w :
  messages w = VArray old ->
  let w' := snd (send input w) in
  let calls := AsyncStorage.setItem_calls (storage w) in
  fst (send input w) = Normal tt /\
  messages w' =
    VArray (if isValid input
            then take MAX_MESSAGES (Message_value (freshMessage input w) :: old)
            else old) /\
  clock_reads w' =
    (if isValid input then S (S (clock_reads w)) else clock_reads w) /\
  newMessage w' = (if isValid input then [] else input) /\
  AsyncStorage.setItem_calls (storage w') =
    (if isValid input
     then (MESSAGES_STORAGE_KEY, JSON.stringify (messages w')) :: calls
     else calls) /\
  (isValid input = false -> storage w' = storage w /\ console w' = console w) /\
  (isValid input = true ->
   match AsyncStorage.setItem_rejects (storage w) (length calls) with
   | Some e =>
       AsyncStorage.items (storage w') = AsyncStorage.items (storage w) /\
       console w' = (js "Error saving messages:", e) :: console w
   | None =>
       AsyncStorage.items (storage w') !! MESSAGES_STORAGE_KEY
         = Some (JSON.stringify (messages w')) /\
       console w' = console w
   end).
Proof.
  intros Hm. cbn zeta. destruct (isValid input) eqn:Hv.
  - rewrite (send_valid input old w Hv Hm).
    pose proof (saveMessagesToStorage_spec
                  (messages (inserted input old w)) (inserted input old w)) as S.
    cbn zeta in S.
    change (storage (inserted input old w)) with (storage w) in S.
    change (console (inserted input old w)) with (console w) in S.
    destruct S as (S1 & S2 & S3 & _ & _ & S6 & _ & S8 & _ & _ & _ & S12).
    rewrite S1, S2, S3, S6, S8.
    repeat split; try reflexivity; try discriminate.
    intros _. destruct (AsyncStorage.setItem_rejects _ _).
    + exact S12.
    + destruct S12 as [-> ->]. split; [apply lookup_insert_eq | reflexivity].
  - rewrite (send_invalid input w Hv). cbn. rewrite Hm.
    repeat split; try reflexivity; discriminate.
Qed.

(** ** Runs *)

Lemma sendAll_snoc inputs input w :
  sendAll (inputs ++ [input]) w = snd (send input (sendAll inputs w)).
Proof. unfold sendAll. now rewrite fold_left_app. Qed.

Lemma sendAll_app pre post w :
  sendAll (pre ++ post) w = sendAll post (sendAll pre w).
Proof. unfold sendAll. now rewrite fold_left_app. Qed.

Lemma sendAll_frame inputs : forall w,
  let w' := sendAll inputs w in
  loading w' = loading w /\ now w' = now w /\
  AsyncStorage.getItem_rejects (storage w')
    = AsyncStorage.getItem_rejects (storage w) /\
  AsyncStorage.getItem_calls (storage w')
    = AsyncStorage.getItem_calls (storage w) /\
  AsyncStorage.setItem_rejects (storage w')
    = AsyncStorage.setItem_rejects (storage w) /\
  (forall k, k <> MESSAGES_STORAGE_KEY ->
     AsyncStorage.items (storage w') !! k = AsyncStorage.items (storage w) !! k) /\
  alerts w' =
    repeat (js "Error", js "Please enter a message") (countInvalid inputs)
    ++ alerts w.
Proof.
  induction inputs as [|input inputs IH] using rev_ind; intros w.
  - cbn. repeat split; reflexivity.
  - cbn zeta. rewrite sendAll_snoc.
    destruct (send_frame input (sendAll inputs w))
      as (F1 & F2 & F3 & F4 & F5 & F6 & F7).
    destruct (IH w) as (I1 & I2 & I3 & I4 & I5 & I6 & I7).
    rewrite F1, F2, F3, F4, F5, F7, I1, I2, I3, I4, I5, I7.
    repeat split; try reflexivity.
    + intros k Hk. now rewrite F6, I6.
    + unfold countInvalid. rewrite List.filter_app, length_app. cbn [List.filter].
      destruct (isValid input); cbn [negb length].
      * now rewrite Nat.add_0_r.
      * rewrite Nat.add_1_r. reflexivity.
Qed.

(** A run on an array keeps an array, and every handler of the run
    completes normally. *)
Lemma sendAll_array inputs : forall old w,
  messages w = VArray old ->
  exists cache,
    messages (sendAll inputs w) = VArray cache /\
    ((length old <= MAX_MESSAGES)%nat -> (length cache <= MAX_MESSAGES)%nat) /\
    ((1 <= countValid inputs)%nat -> (length cache <= MAX_MESSAGES)%nat).
Proof.
  induction inputs as [|input inputs IH]; intros old w Hm.
  - exists old. cbn. split; [exact Hm|]. split; [auto | lia].
  - rewrite sendAll_cons.
    destruct (send_array_step input old w Hm) as (_ & Hm' & _).
    destruct (IH _ _ Hm') as (cache & Hc & Hb1 & Hb2).
    exists cache. split; [exact Hc|].
    unfold countValid in *. cbn [List.filter].
    destruct (isValid input); cbn [length].
    + assert (length cache <= MAX_MESSAGES)%nat
        by (apply Hb1; rewrite length_take; lia).
      split; auto.
    + split; [exact Hb1 | exact Hb2].
Qed.

Lemma countValid_snoc inputs input :
  countValid (inputs ++ [input]) =
  (countValid inputs + (if isValid input then 1 else 0))%nat.
Proof.
  unfold countValid. rewrite List.filter_app, length_app. cbn [List.filter].
  now destruct (isValid input).
Qed.

(** One [setItem] call for each accepted input, all under the key of the
    component, the newest with the serialisation of the cache. *)
Lemma sendAll_calls inputs : forall old w,
  messages w = VArray old ->
  exists calls,
    AsyncStorage.setItem_calls (storage (sendAll inputs w))
      = calls ++ AsyncStorage.setItem_calls (storage w) /\
    length calls = countValid inputs /\
    Forall (fun call => fst call = MESSAGES_STORAGE_KEY) calls /\
    ((1 <= countValid inputs)%nat ->
     exists rest,
       calls = (MESSAGES_STORAGE_KEY,
                JSON.stringify (messages (sendAll inputs w))) :: rest).
Proof.
  induction inputs as [|input inputs IH] using rev_ind; intros old w Hm.
  - exists []. cbn. repeat split; [constructor | lia].
  - destruct (IH old w Hm) as (calls & Hc & Hl & Hk & Hh).
    destruct (sendAll_array inputs old w Hm) as (cache & Hcache & _).
    rewrite sendAll_snoc, countValid_snoc.
    destruct (send_array_step input cache _ Hcache)
      as (_ & Hm' & _ & _ & Hcalls & Hinv & _).
    cbn zeta in Hcalls. rewrite Hcalls, Hc.
    destruct (isValid input).
    + eexists (_ :: calls). repeat split.
      * cbn [length]. lia.
      * constructor; [reflexivity | exact Hk].
      * intros _. eexists. reflexivity.
    + exists calls. rewrite Nat.add_0_r. repeat split; try assumption.
      intros H. destruct (Hh H) as (rest & ->). exists rest.
      now rewrite Hm', <- Hcache.
Qed.

(** While no write rejects, a run on an array logs nothing. *)
Lemma sendAll_quiet inputs : forall old w,
  messages w = VArray old ->
  (forall n, AsyncStorage.setItem_rejects (storage w) n = None) ->
  console (sendAll inputs w) = console w.
Proof.
  induction inputs as [|input inputs IH] using rev_ind; intros old w Hm Hok;
    [reflexivity|].
  destruct (sendAll_array inputs old w Hm) as (cache & Hcache & _).
  destruct (sendAll_frame inputs w) as (_ & _ & _ & _ & Hrej & _).
  rewrite sendAll_snoc.
  destruct (send_array_step input cache _ Hcache)
    as (_ & _ & _ & _ & _ & Hinv & Hval).
  cbn zeta in Hval. rewrite Hrej, Hok in Hval.
  destruct (isValid input).
  - destruct (Hval eq_refl) as [_ ->]. now apply (IH old).
  - destruct (Hinv eq_refl) as [_ ->]. now apply (IH old).
Qed.

(** While no write rejects, the store holds the serialisation of the cache
    from the first accepted input on. *)
Lemma sendAll_in_sync inputs : forall old w,
  messages w = VArray old ->
  (forall n, AsyncStorage.setItem_rejects (storage w) n = None) ->
  (1 <= countValid inputs)%nat ->
  AsyncStorage.items (storage (sendAll inputs w)) !! MESSAGES_STORAGE_KEY
  = Some (JSON.stringify (messages (sendAll inputs w))).
Proof.
  induction inputs as [|input inputs IH] using rev_ind; intros old w Hm Hok Hn;
    [cbn in Hn; lia|].
  destruct (sendAll_array inputs old w Hm) as (cache & Hcache & _).
  destruct (sendAll_frame inputs w) as (_ & _ & _ & _ & Hrej & _).
  rewrite countValid_snoc in Hn. rewrite sendAll_snoc.
  destruct (send_array_step input cache _ Hcache)
    as (_ & Hm' & _ & _ & _ & Hinv & Hval).
  cbn zeta in Hval. rewrite Hrej, Hok in Hval.
  destruct (isValid input).
  - now destruct (Hval eq_refl) as [-> _].
  - destruct (Hinv eq_refl) as [-> _]. rewrite Hm', <- Hcache.
    apply (IH old); [exact Hm | exact Hok | lia].
Qed.

(** On a value that cannot be spread, no run changes the cache or the
    store. *)
Lemma sendAll_not_iterable inputs : forall w,
  iterable (messages w) = false ->
  messages (sendAll inputs w) = messages w /\
  storage (sendAll inputs w) = storage w /\
  console (sendAll inputs w) = console w.
Proof.
  induction inputs as [|input inputs IH]; intros w Hi;
    [repeat split; reflexivity|].
  rewrite sendAll_cons.
  assert (Hstep : messages (snd (send input w)) = messages w /\
                  storage (snd (send input w)) = storage w /\
                  console (snd (send input w)) = console w).
  { destruct (isValid input) eqn:Hv.
    - rewrite send_not_iterable; [now cbn | exact Hv |].
      destruct (messages w); try exact I; discriminate Hi.
    - rewrite (send_invalid input w Hv). now cbn. }
  destruct Hstep as (E1 & E2 & E3).
  destruct (IH (snd (send input w))) as (I1 & I2 & I3); [now rewrite E1|].
  rewrite I1, I2, I3. repeat split; assumption.
Qed.

(** ** What loading leaves alone *)

Lemma loadMessagesFromStorage_frame w :
  let w' := snd (loadMessagesFromStorage w) in
  newMessage w' = newMessage w /\ alerts w' = alerts w /\
  now w' = now w /\ clock_reads w' = clock_reads w /\
  AsyncStorage.getItem_rejects (storage w')
    = AsyncStorage.getItem_rejects (storage w) /\
  AsyncStorage.setItem_rejects (storage w')
    = AsyncStorage.setItem_rejects (storage w) /\
  AsyncStorage.getItem_calls (storage w')
    = S (AsyncStorage.getItem_calls (storage w)).
Proof.
  unfold loadMessagesFromStorage, try_finally, try_catch, withStorage,
    AsyncStorage.getItem, JSON_parse, console_error, setLoading, setMessages,
    throw, mbind, M_bind, mret, M_ret.
  destruct (AsyncStorage.getItem_rejects (storage w)
              (AsyncStorage.getItem_calls (storage w))) as [e|];
    [cbn; repeat split; reflexivity|].
  destruct (AsyncStorage.items (storage w) !! MESSAGES_STORAGE_KEY) as [stored|];
    [|cbn; repeat split; reflexivity].
  cbn. destruct (truthy stored); [|cbn; repeat split; reflexivity].
  destruct (JSON.parse stored); cbn; repeat split; reflexivity.
Qed.

(** ** Trimming *)

Lemma trimStart_split s :
  exists pre,
    s = pre ++ trimStart s /\ Forall (fun c => isWhiteSpace c = true) pre.
Proof.
  induction s as [|c s (pre & E & Hpre)].
  - exists []. split; [reflexivity | constructor].
  - cbn [trimStart]. destruct (isWhiteSpace c) eqn:Hc.
    + exists (c :: pre). split; [cbn [app]; now f_equal | now constructor].
    + exists []. split; [reflexivity | constructor].
Qed.

Lemma trimStart_head s c r :
  trimStart s = c :: r -> isWhiteSpace c = false.
Proof.
  induction s as [|d s IH]; cbn [trimStart]; [discriminate|].
  destruct (isWhiteSpace d) eqn:Hd; [exact IH|].
  intros H. injection H as <- _. exact Hd.
Qed.

Lemma trimStart_nil s :
  trimStart s = [] <-> Forall (fun c => isWhiteSpace c = true) s.
Proof.
  induction s as [|c s IH]; cbn [trimStart].
  - split; [constructor | reflexivity].
  - destruct (isWhiteSpace c) eqn:Hc.
    + rewrite IH. split; [now constructor | intros H; now apply Forall_cons_1 in H].
    + split; [discriminate|]. intros H. apply Forall_cons_1 in H as [H _].
      congruence.
Qed.

Lemma trimEnd_split t :
  exists post,
    t = trimEnd t ++ post /\ Forall (fun c => isWhiteSpace c = true) post.
Proof.
  unfold trimEnd. destruct (trimStart_split (rev t)) as (pre & E & Hpre).
  exists (rev pre). split.
  - rewrite <- rev_app_distr, <- E. now rewrite rev_involutive.
  - apply Forall_forall. intros c Hc. rewrite Forall_forall in Hpre.
    apply Hpre. apply list_elem_of_In. apply list_elem_of_In in Hc.
    now apply in_rev.
Qed.

Lemma trimEnd_last t r c :
  trimEnd t = r ++ [c] -> isWhiteSpace c = false.
Proof.
  unfold trimEnd. intros H. apply (f_equal (@rev N)) in H.
  rewrite rev_involutive, rev_app_distr in H. cbn [rev app] in H.
  exact (trimStart_head _ _ _ H).
Qed.

(** What [trim] gives: the input without a white-space prefix and a
    white-space suffix, neither starting nor ending with white space. *)
Lemma trim_spec s :
  (exists pre post,
     s = pre ++ trim s ++ post /\
     Forall (fun c => isWhiteSpace c = true) pre /\
     Forall (fun c => isWhiteSpace c = true) post) /\
  (forall c r, trim s = c :: r -> isWhiteSpace c = false) /\
  (forall c r, trim s = r ++ [c] -> isWhiteSpace c = false).
Proof.
  unfold trim.
  destruct (trimStart_split s) as (pre & E & Hpre).
  destruct (trimEnd_split (trimStart s)) as (post & E' & Hpost).
  split; [|split].
  - exists pre, post. split; [|split; assumption]. now rewrite <- E'.
  - intros c r H. rewrite H in E'. cbn [app] in E'.
    exact (trimStart_head _ _ _ E').
  - intros c r. apply trimEnd_last.
Qed.

Lemma trim_nil s :
  trim s = [] <-> Forall (fun c => isWhiteSpace c = true) s.
Proof.
  split.
  - intros H. destruct (trim_spec s) as ((pre & post & E & Hpre & Hpost) & _).
    rewrite H in E. cbn [app] in E.
    unfold trim in H.
    destruct (trimEnd_split (trimStart s)) as (post' & E' & Hpost').
    rewrite H in E'. cbn [app] in E'.
    destruct (trimStart s) as [|c r] eqn:Et.
    + now apply trimStart_nil.
    + apply trimStart_head in Et. subst post'.
      apply Forall_cons_1 in Hpost' as [Hc _]. congruence.
  - intros H. unfold trim. apply trimStart_nil in H. now rewrite H.
Qed.

Lemma isValid_false_iff input :
  isValid input = false <-> Forall (fun c => isWhiteSpace c = true) input.
Proof.
  rewrite <- trim_nil. unfold isValid, truthy.
  destruct (trim input); split; congruence.
Qed.

(** ** The messages of a run *)

Lemma created_wellFormed clock inputs : forall reads,
  (forall n, (reads <= n < reads + 2 * length inputs)%nat ->
             isSafeInteger (clock n) = true) ->
  Forall wellFormed (created clock reads inputs).
Proof.
  induction inputs as [|input inputs IH]; intros reads Hsafe;
    [constructor|].
  cbn [created]. cbn [length] in Hsafe. destruct (isValid input).
  - constructor; [apply Hsafe; lia | apply IH; intros n Hn; apply Hsafe; lia].
  - apply IH. intros n Hn. apply Hsafe. lia.
Qed.

Lemma Forall_take_rev {A : Type} (P : A -> Prop) (l : list A) n :
  Forall P l -> Forall P (take n (rev l)).
Proof.
  intros H. apply Forall_take. apply Forall_forall. intros x Hx.
  rewrite Forall_forall in H. apply H.
  apply list_elem_of_In. apply list_elem_of_In in Hx. now apply in_rev.
Qed.

Lemma newestFirst_take ts : forall n, newestFirst ts -> newestFirst (take n ts).
Proof.
  induction ts as [|t ts IH]; intros [|n] H; cbn; try exact I.
  destruct H as [H1 H2]. split; [now apply Forall_take | now apply IH].
Qed.

(** With a clock that never goes back, a run of sends keeps the timestamps
    of the cache in order, none later than the next reading. *)
Lemma sendAll_newestFirst inputs : forall ms w,
  (forall i j, (i <= j)%nat -> (now w i <= now w j)%Z) ->
  messages w = MessageCache_value ms ->
  newestFirst (map timestamp ms) ->
  Forall (fun t => (t <= now w (clock_reads w))%Z) (map timestamp ms) ->
  exists ms',
    messages (sendAll inputs w) = MessageCache_value ms' /\
    newestFirst (map timestamp ms').
Proof.
  induction inputs as [|input inputs IH]; intros ms w Hmono Hm Hs Hb.
  - exists ms. now split.
  - rewrite sendAll_cons.
    destruct (send_array_step input _ w Hm) as (_ & Hm' & Hr & _).
    destruct (send_frame input w) as (_ & Hn & _).
    destruct (isValid input).
    + apply (IH (take MAX_MESSAGES (freshMessage input w :: ms))).
      * intros i j Hij. rewrite Hn. now apply Hmono.
      * rewrite Hm'. unfold MessageCache_value.
        now rewrite <- firstn_map.
      * rewrite <- firstn_map. apply newestFirst_take. cbn [map newestFirst].
        split; [|exact Hs]. cbn [freshMessage timestamp].
        eapply Forall_impl; [exact Hb|]. cbn beta. intros t Ht.
        specialize (Hmono (clock_reads w) (S (clock_reads w))). lia.
      * rewrite Hn, Hr, <- firstn_map. apply Forall_take. cbn [map].
        constructor.
        -- cbn [freshMessage timestamp]. apply Hmono. lia.
        -- eapply Forall_impl; [exact Hb|]. cbn beta. intros t Ht.
           specialize (Hmono (clock_reads w) (S (S (clock_reads w)))). lia.
    + apply (IH ms); try assumption.
      * intros i j Hij. rewrite Hn. now apply Hmono.
      * now rewrite Hn, Hr.
Qed.




End Runs.

(** * The tests of the repository, replayed *)

Section Tests.

(** Input Validation Logic: what is rejected and what is kept. *)
Example test_invalid_inputs :
  Forall (fun input => isValid input = false)
    [[]; js "   "; [9]; [10]; [9; 10]; js "  " ++ 10 :: js "  "].
Proof. repeat constructor. Qed.

Example test_valid_inputs :
  Forall (fun input => isValid input = true)
    [js "Hello"; js "Test message"; js "123"; js "a"].
Proof. repeat constructor. Qed.

Example test_trim :
  trim (js "  Hello  ") = js "Hello" /\
  trim (9 :: js "Test message" ++ [9]) = js "Test message" /\
  trim (10 :: js "Another message" ++ [10]) = js "Another message" /\
  trim (js "   Spaces everywhere   ") = js "Spaces everywhere".
Proof. repeat split; reflexivity. Qed.

(** Data Serialization and Error Recovery: texts that [JSON.parse] refuses.
    The second is an object whose value is the bare word json. *)
Example test_corrupted_cache : JSON.parse (js "invalid json data") = None.
Proof. reflexivity. Qed.

Example test_malformed_JSON :
  JSON.parse (js "{" ++ 34 :: js "invalid" ++ 34 :: js ": json}") = None.
Proof. reflexivity. Qed.

(** Message Limit Logic: a sixth message in front of five. *)
Example test_limit :
  let existing := map Message_value (map sampleMessage [1; 2; 3; 4; 5]%Z) in
  let newest := Message_value (sampleMessage 6) in
  Array_slice 0 MAX_MESSAGES (newest :: existing)
  = newest :: map Message_value (map sampleMessage [1; 2; 3; 4]%Z).
Proof. reflexivity. Qed.

(** Data Serialization: what is written for one message. *)
Example test_serialize :
  JSON.stringify
    (MessageCache_value
       [{| id := js "1"; text := js "Test message";
           timestamp := 1642680000000 |}])
  = js "[{" ++ 34 :: js "id" ++ 34 :: js ":" ++ 34 :: js "1" ++ 34 :: js ","
    ++ 34 :: js "text" ++ 34 :: js ":" ++ 34 :: js "Test message" ++ 34
    :: js "," ++ 34 :: js "timestamp" ++ 34 :: js ":1642680000000}]".
Proof. reflexivity. Qed.

End Tests.

(** * Properties of the specification *)

(** C1. A valid insert on a cache of length [n] gives a cache of length
    [min MAX_MESSAGES (n + 1)]; a run of inserts from an empty cache gives a
    cache of length [min MAX_MESSAGES v], where [v] counts the inputs that
    are not empty once trimmed. *)
Theorem C1_cache_length :
  (forall inputs w,
     messages w = VArray [] ->
     exists cache,
       messages (sendAll inputs w) = VArray cache /\
       length cache = Nat.min MAX_MESSAGES (countValid inputs)) /\
  (forall input old w,
     isValid input = true -> messages w = VArray old ->
     exists cache,
       messages (snd (send input w)) = VArray cache /\
       length cache = Nat.min MAX_MESSAGES (length old + 1)).
Proof.
  split.
  - intros inputs w Hm. eexists. split.
    + apply (sendAll_messages inputs [] w Hm). cbn. lia.
    + rewrite app_nil_r, length_take, length_rev, length_map, length_created.
      lia.
  - intros input old w Hv Hm.
    destruct (send_valid_world input old w Hv Hm) as (_ & Hm' & _).
    eexists. split; [exact Hm'|]. rewrite length_take. cbn [length]. lia.
Qed.

(** C2. A valid insert puts the message it builds at index 0.  A run of
    inserts from an empty cache leaves the messages it built newest first, in
    the order of insertion whatever their timestamps; after six valid inserts
    the cache holds the sixth to the second message and, when the first
    message differs from these, not the first. *)
Theorem C2_newest_first :
  (forall input old w,
     isValid input = true -> messages w = VArray old ->
     exists cache,
       messages (snd (send input w)) = VArray cache /\
       cache !! 0%nat = Some (Message_value (freshMessage input w))) /\
  (forall inputs w,
     messages w = VArray [] ->
     messages (sendAll inputs w) =
     MessageCache_value
       (take MAX_MESSAGES (rev (created (now w) (clock_reads w) inputs)))) /\
  (forall t1 t2 t3 t4 t5 t6 w,
     Forall (fun t => isValid t = true) [t1; t2; t3; t4; t5; t6] ->
     messages w = VArray [] ->
     exists M1 M2 M3 M4 M5 M6,
       created (now w) (clock_reads w) [t1; t2; t3; t4; t5; t6]
         = [M1; M2; M3; M4; M5; M6] /\
       messages (sendAll [t1; t2; t3; t4; t5; t6] w)
         = MessageCache_value [M6; M5; M4; M3; M2] /\
       (Forall (fun M => M <> M1) [M6; M5; M4; M3; M2] ->
        ~ In (Message_value M1) (map Message_value [M6; M5; M4; M3; M2]))).
Proof.
  split; [|split].
  - intros input old w Hv Hm.
    destruct (send_valid_world input old w Hv Hm) as (_ & Hm' & _).
    eexists. split; [exact Hm'|]. reflexivity.
  - exact sendAll_from_empty.
  - intros t1 t2 t3 t4 t5 t6 w Hv Hm.
    rewrite (sendAll_from_empty _ w Hm).
    repeat match goal with
           | H : Forall _ (_ :: _) |- _ => apply Forall_cons_1 in H as [? H]
           end.
    cbn [created].
    repeat match goal with
           | H : isValid _ = true |- _ => rewrite H; clear H
           end.
    do 6 eexists. split; [reflexivity|]. split; [reflexivity|].
    intros Hd Hin. apply in_map_iff in Hin as (M & HM & Hin).
    rewrite Forall_forall in Hd. apply (Hd M).
    + now apply list_elem_of_In.
    + unfold Message_value in HM.
      destruct M as [i t ts]. cbn in HM. injection HM as -> -> ->. reflexivity.
Qed.

(** C4. When the input is empty once trimmed, [addMessage] only opens the
    error dialog: the cache, the store (no call is made to it), the clock (no
    message is built) and the console are as before. *)
Theorem C4_blank_input_rejected :
  (forall w,
     isValid (newMessage w) = false ->
     let w' := snd (addMessage w) in
     fst (addMessage w) = Normal tt /\
     messages w' = messages w /\
     storage w' = storage w /\
     clock_reads w' = clock_reads w /\
     console w' = console w /\
     alerts w' = (js "Error", js "Please enter a message") :: alerts w) /\
  (forall inputs w,
     Forall (fun input => isValid input = false) inputs ->
     messages (sendAll inputs w) = messages w /\
     storage (sendAll inputs w) = storage w).
Proof.
  split.
  - intros w H. unfold isValid in H.
    unfold addMessage, getNewMessage, Alert_alert, mbind, M_bind. cbn.
    rewrite H. cbn. repeat split; reflexivity.
  - intros inputs. induction inputs as [|input inputs IH]; intros w Hall.
    + split; reflexivity.
    + apply Forall_cons_1 in Hall as [Hi Hall].
      rewrite sendAll_cons. destruct (IH (snd (send input w)) Hall) as [-> ->].
      rewrite (send_invalid input w Hi). split; reflexivity.
Qed.

(** C10. A valid insert keeps the first [MAX_MESSAGES - 1] previous
    messages as they were, one index further; what it drops, it drops from
    the tail of the previous cache. *)
Theorem C10_retained_prefix :
  forall input old w,
    isValid input = true -> messages w = VArray old ->
    exists cache,
      messages (snd (send input w)) = VArray cache /\
      tail cache = take (MAX_MESSAGES - 1) old /\
      length (tail cache) = Nat.min (length old) (MAX_MESSAGES - 1) /\
      (forall i, (i < Nat.min (length old) (MAX_MESSAGES - 1))%nat ->
                 cache !! S i = old !! i).
Proof.
  intros input old w Hv Hm.
  destruct (send_valid_world input old w Hv Hm) as (_ & Hm' & _).
  eexists. split; [exact Hm'|].
  change MAX_MESSAGES with 5%nat. rewrite firstn_cons. cbn [tail Nat.sub].
  split; [reflexivity|]. split; [rewrite length_take; lia|].
  intros i Hi. cbn [lookup list_lookup]. apply lookup_take_lt. lia.
Qed.

(** C3. Loading never throws.  With nothing stored under the key, or with a
    stored string that is not JSON, a freshly mounted component ends with an
    empty cache and the loading flag cleared. *)
Theorem C3_load_falls_back :
  (forall w,
     fst (loadMessagesFromStorage w) = Normal tt /\
     loading (snd (loadMessagesFromStorage w)) = false) /\
  (forall st clock,
     AsyncStorage.items st !! MESSAGES_STORAGE_KEY = None ->
     messages (snd (loadMessagesFromStorage (mount st clock))) = VArray []) /\
  (forall st clock stored,
     AsyncStorage.items st !! MESSAGES_STORAGE_KEY = Some stored ->
     JSON.parse stored = None ->
     messages (snd (loadMessagesFromStorage (mount st clock))) = VArray []).
Proof.
  split; [|split].
  - intros w. pose proof (loadMessagesFromStorage_spec w) as L.
    cbn zeta in L. now destruct L as (? & ? & _).
  - intros st clock H. now rewrite load_fallback by (left; exact H).
  - intros st clock stored H Hp.
    now rewrite load_fallback by (right; exists stored; split; assumption).
Qed.

(** C5. Parsing the serialisation of a cache of well-formed messages gives
    the cache back; so does loading, in a fresh component, what
    [saveMessagesToStorage] wrote, when neither the write nor the read
    rejects. *)
Theorem C5_serialisation_round_trip :
  (forall ms,
     Forall wellFormed ms ->
     JSON.parse (JSON.stringify (MessageCache_value ms))
     = Some (MessageCache_value ms)) /\
  (forall ms w clock,
     Forall wellFormed ms ->
     let st := storage w in
     AsyncStorage.setItem_rejects st (length (AsyncStorage.setItem_calls st))
       = None ->
     AsyncStorage.getItem_rejects st (AsyncStorage.getItem_calls st) = None ->
     let st' := storage (snd (saveMessagesToStorage (MessageCache_value ms) w)) in
     messages (snd (loadMessagesFromStorage (mount st' clock)))
     = MessageCache_value ms).
Proof.
  split; [exact parse_stringify_MessageCache|].
  intros ms w clock Hwf st Hset Hget st'.
  pose proof (saveMessagesToStorage_spec (MessageCache_value ms) w) as S.
  cbn zeta in S. fold st in S. rewrite Hset in S.
  destruct S as (_ & _ & _ & _ & _ & _ & _ & _ & _ & Sg & Sc & Si & _).
  fold st' in Sg, Sc, Si.
  apply (load_parsed _ (JSON.stringify (MessageCache_value ms))).
  - cbn [mount storage]. now rewrite Sg, Sc.
  - cbn [mount storage]. rewrite Si. apply lookup_insert_eq.
  - now apply parse_stringify_MessageCache.
Qed.

(** C9. Loading takes the parsed value as it is.  Whatever the stored
    string parses to becomes the cache, array or not; a stored cache
    of any length is loaded at that length, beyond [MAX_MESSAGES] too, and
    the next valid insert brings it down to [MAX_MESSAGES]. *)
Theorem C9_load_verbatim :
  (forall st clock stored v,
     AsyncStorage.getItem_rejects st (AsyncStorage.getItem_calls st) = None ->
     AsyncStorage.items st !! MESSAGES_STORAGE_KEY = Some stored ->
     JSON.parse stored = Some v ->
     messages (snd (loadMessagesFromStorage (mount st clock))) = v) /\
  (forall st clock ms,
     AsyncStorage.getItem_rejects st (AsyncStorage.getItem_calls st) = None ->
     AsyncStorage.items st !! MESSAGES_STORAGE_KEY
       = Some (JSON.stringify (MessageCache_value ms)) ->
     Forall wellFormed ms ->
     exists cache,
       messages (snd (loadMessagesFromStorage (mount st clock))) = VArray cache /\
       length cache = length ms) /\
  (forall input old w,
     isValid input = true -> messages w = VArray old ->
     (MAX_MESSAGES <= length old + 1)%nat ->
     exists cache,
       messages (snd (send input w)) = VArray cache /\
       length cache = MAX_MESSAGES) /\
  (forall clock,
     messages (snd (loadMessagesFromStorage (mount (storeWith (js "42")) clock)))
       = VNumber 42 /\
     messages (snd (loadMessagesFromStorage
                      (mount (storeWith (js "[1,null]")) clock)))
       = VArray [VNumber 1; VNull]).
Proof.
  split; [|split; [|split]].
  - intros st clock stored v Hr Hs Hp. now apply (load_parsed _ stored).
  - intros st clock ms Hr Hs Hwf.
    exists (map Message_value ms). split; [|apply length_map].
    apply (load_parsed _ (JSON.stringify (MessageCache_value ms))); auto.
    now apply parse_stringify_MessageCache.
  - intros input old w Hv Hm Hlen.
    destruct (send_valid_world input old w Hv Hm) as (_ & Hm' & _).
    eexists. split; [exact Hm'|]. rewrite length_take. cbn [length]. lia.
  - intros clock. split.
    + now apply (load_parsed _ (js "42")).
    + now apply (load_parsed _ (js "[1,null]")).
Qed.

(** C6, as the code has it.  When the write rejects, [saveMessagesToStorage]
    catches the rejection and logs it: it completes normally for its caller,
    has called [setItem] once, and has left the stored items and the cache
    as they were. *)
Theorem C6_write_failure_logged :
  forall v w e,
    AsyncStorage.setItem_rejects (storage w)
      (length (AsyncStorage.setItem_calls (storage w))) = Some e ->
    let w' := snd (saveMessagesToStorage v w) in
    fst (saveMessagesToStorage v w) = Normal tt /\
    console w' = (js "Error saving messages:", e) :: console w /\
    AsyncStorage.setItem_calls (storage w')
      = (MESSAGES_STORAGE_KEY, JSON.stringify v)
        :: AsyncStorage.setItem_calls (storage w) /\
    AsyncStorage.items (storage w') = AsyncStorage.items (storage w) /\
    messages w' = messages w.
Proof.
  intros v w e He w'.
  pose proof (saveMessagesToStorage_spec v w) as S. cbn zeta in S.
  rewrite He in S. fold w' in S.
  destruct S as (S1 & S2 & _ & _ & _ & _ & _ & S8 & _ & _ & _ & S12 & S13).
  repeat split; assumption.
Qed.

(** C7. When the write rejects after a valid insert, the cache keeps the
    new message in front while the stored items stay as they were; the
    handler completes normally and the rejection is on the console.  A valid
    insert whose write resolves leaves the store holding the serialisation
    of the cache. *)
Theorem C7_no_rollback_on_write_failure :
  (forall input old w e,
     isValid input = true -> messages w = VArray old ->
     AsyncStorage.setItem_rejects (storage w)
       (length (AsyncStorage.setItem_calls (storage w))) = Some e ->
     let w' := snd (send input w) in
     fst (send input w) = Normal tt /\
     messages w' =
       VArray (take MAX_MESSAGES (Message_value (freshMessage input w) :: old)) /\
     AsyncStorage.items (storage w') = AsyncStorage.items (storage w) /\
     console w' = (js "Error saving messages:", e) :: console w) /\
  (forall input old w,
     isValid input = true -> messages w = VArray old ->
     AsyncStorage.setItem_rejects (storage w)
       (length (AsyncStorage.setItem_calls (storage w))) = None ->
     let w' := snd (send input w) in
     AsyncStorage.items (storage w') !! MESSAGES_STORAGE_KEY
     = Some (JSON.stringify (messages w'))).
Proof.
  split.
  - intros input old w e Hv Hm He. cbn zeta.
    rewrite (send_valid input old w Hv Hm).
    pose proof (saveMessagesToStorage_spec
                  (messages (inserted input old w)) (inserted input old w)) as S.
    cbn zeta in S.
    change (storage (inserted input old w)) with (storage w) in S.
    change (console (inserted input old w)) with (console w) in S.
    rewrite He in S.
    destruct S as (S1 & S2 & _ & _ & _ & _ & _ & _ & _ & _ & _ & S12 & S13).
    repeat split; assumption.
  - intros input old w Hv Hm He. cbn zeta.
    rewrite (send_valid input old w Hv Hm).
    pose proof (saveMessagesToStorage_spec
                  (messages (inserted input old w)) (inserted input old w)) as S.
    cbn zeta in S.
    change (storage (inserted input old w)) with (storage w) in S.
    rewrite He in S.
    destruct S as (_ & S2 & _ & _ & _ & _ & _ & _ & _ & _ & _ & S12 & _).
    rewrite S12, S2. apply lookup_insert_eq.
Qed.

(** C8, as the code has it.  The id of a message is the decimal form of a
    clock reading.  After a run of valid inserts from an empty cache, the
    keys of the items in the cache are pairwise distinct provided the
    readings taken for the ids of different inserts differ. *)
Theorem C8_ids_distinct_when_clock_advances :
  forall inputs w,
    Forall (fun input => isValid input = true) inputs ->
    messages w = VArray [] ->
    (forall i j, (i < length inputs)%nat -> (j < length inputs)%nat ->
       now w (clock_reads w + 2 * i)%nat = now w (clock_reads w + 2 * j)%nat ->
       i = j) ->
    exists cache,
      messages (sendAll inputs w) = VArray cache /\
      NoDup (map keyExtractor cache).
Proof.
  intros inputs w Hall Hm Hclock.
  rewrite (sendAll_from_empty inputs w Hm). unfold MessageCache_value.
  eexists. split; [reflexivity|].
  rewrite map_map.
  rewrite (map_ext _ (fun m => Normal (Some (VString (id m)))))
    by (intros m; apply keyExtractor_Message).
  rewrite <- (map_map id (fun i => Normal (Some (VString i)))).
  apply NoDup_fmap_2; [intros x y H; now injection H|].
  rewrite <- firstn_map, map_rev. apply NoDup_take_rev.
  rewrite (created_ids _ _ _ Hall).
  apply NoDup_fmap_2_strong; [|apply NoDup_seq].
  intros i j Hi Hj Heq. apply Number_toString_inj in Heq.
  apply elem_of_seq in Hi, Hj. apply Hclock; [lia | lia | exact Heq].
Qed.

(** * The properties at sample inputs *)

Lemma C1_cache_length_witness :
  let w := mount emptyStore (ticking 1642680000000) in
  isValid (js " hello ") = true /\ messages w = VArray [] /\
  exists cache,
    messages (snd (send (js " hello ") w)) = VArray cache /\
    length cache = Nat.min MAX_MESSAGES (length (@nil JSValue) + 1).
Proof.
  cbn zeta. split; [reflexivity|]. split; [reflexivity|].
  apply (proj2 C1_cache_length (js " hello ") []
           (mount emptyStore (ticking 1642680000000))); reflexivity.
Defined.

Lemma C2_newest_first_witness :
  let w := mount emptyStore (ticking 1642680000000) in
  let inputs := [js "M1"; js "M2"; js "M3"; js "M4"; js "M5"; js "M6"] in
  Forall (fun t => isValid t = true) inputs /\
  exists M1 M2 M3 M4 M5 M6,
    created (now w) (clock_reads w) inputs = [M1; M2; M3; M4; M5; M6] /\
    messages (sendAll inputs w) = MessageCache_value [M6; M5; M4; M3; M2] /\
    (Forall (fun M => M <> M1) [M6; M5; M4; M3; M2] ->
     ~ In (Message_value M1) (map Message_value [M6; M5; M4; M3; M2])).
Proof.
  cbn zeta.
  assert (H : Forall (fun t => isValid t = true)
                [js "M1"; js "M2"; js "M3"; js "M4"; js "M5"; js "M6"])
    by (repeat constructor).
  split; [exact H|].
  apply (proj2 (proj2 C2_newest_first) _ _ _ _ _ _
           (mount emptyStore (ticking 1642680000000)) H).
  reflexivity.
Defined.

Lemma C3_load_falls_back_witness :
  let st := storeWith (js "invalid json data") in
  AsyncStorage.items st !! MESSAGES_STORAGE_KEY = Some (js "invalid json data") /\
  JSON.parse (js "invalid json data") = None /\
  messages (snd (loadMessagesFromStorage (mount st (frozen 0)))) = VArray [].
Proof.
  cbn zeta.
  assert (H1 : AsyncStorage.items (storeWith (js "invalid json data"))
               !! MESSAGES_STORAGE_KEY = Some (js "invalid json data"))
    by (vm_compute; reflexivity).
  assert (H2 : JSON.parse (js "invalid json data") = None)
    by (vm_compute; reflexivity).
  split; [exact H1|]. split; [exact H2|].
  exact (proj2 (proj2 C3_load_falls_back) _ (frozen 0) _ H1 H2).
Defined.

Lemma C4_blank_input_rejected_witness :
  let w := snd (setNewMessage [32; 9; 10] (mount emptyStore (frozen 0))) in
  isValid (newMessage w) = false /\
  fst (addMessage w) = Normal tt /\
  messages (snd (addMessage w)) = messages w /\
  storage (snd (addMessage w)) = storage w /\
  clock_reads (snd (addMessage w)) = clock_reads w /\
  console (snd (addMessage w)) = console w /\
  alerts (snd (addMessage w))
    = (js "Error", js "Please enter a message") :: alerts w.
Proof.
  cbn zeta. split; [reflexivity|].
  apply (proj1 C4_blank_input_rejected
           (snd (setNewMessage [32; 9; 10] (mount emptyStore (frozen 0))))).
  reflexivity.
Defined.

Lemma C5_serialisation_round_trip_witness :
  let ms := [sampleMessage 1; sampleMessage 2] in
  Forall wellFormed ms /\
  JSON.parse (JSON.stringify (MessageCache_value ms))
  = Some (MessageCache_value ms).
Proof.
  cbn zeta.
  assert (H : Forall wellFormed [sampleMessage 1; sampleMessage 2])
    by (repeat constructor).
  split; [exact H|]. exact (proj1 C5_serialisation_round_trip _ H).
Defined.

Lemma C7_no_rollback_on_write_failure_witness :
  let e := StorageError (js "Storage full") in
  let w := mount (readOnlyStore e) (ticking 1642680000000) in
  let w' := snd (send (js "hello") w) in
  messages w' = VArray [Message_value (freshMessage (js "hello") w)] /\
  AsyncStorage.items (storage w') !! MESSAGES_STORAGE_KEY = None.
Proof.
  cbn zeta.
  destruct (proj1 C7_no_rollback_on_write_failure (js "hello") []
              (mount (readOnlyStore (StorageError (js "Storage full")))
                     (ticking 1642680000000))
              (StorageError (js "Storage full"))
              eq_refl eq_refl eq_refl) as (_ & Hm & Hi & _).
  split; [exact Hm|]. rewrite Hi. reflexivity.
Defined.

Lemma C9_load_verbatim_witness :
  let ms := map sampleMessage [1; 2; 3; 4; 5; 6; 7]%Z in
  let st := storeWith (JSON.stringify (MessageCache_value ms)) in
  exists cache,
    messages (snd (loadMessagesFromStorage (mount st (frozen 0)))) = VArray cache /\
    length cache = 7%nat.
Proof.
  cbn zeta.
  apply (proj1 (proj2 C9_load_verbatim)
           (storeWith (JSON.stringify
              (MessageCache_value (map sampleMessage [1; 2; 3; 4; 5; 6; 7]%Z))))
           (frozen 0) (map sampleMessage [1; 2; 3; 4; 5; 6; 7]%Z)).
  - reflexivity.
  - vm_compute. reflexivity.
  - repeat constructor.
Defined.

Lemma C10_retained_prefix_witness :
  let old := map Message_value (map sampleMessage [5; 4; 3; 2; 1]%Z) in
  let w := snd (setMessages (VArray old) (mount emptyStore (ticking 1642680300000))) in
  exists cache,
    messages (snd (send (js "Message 6") w)) = VArray cache /\
    tail cache = take (MAX_MESSAGES - 1) old /\
    length (tail cache) = Nat.min (length old) (MAX_MESSAGES - 1) /\
    (forall i, (i < Nat.min (length old) (MAX_MESSAGES - 1))%nat ->
               cache !! S i = old !! i).
Proof.
  cbn zeta.
  apply (C10_retained_prefix (js "Message 6")
           (map Message_value (map sampleMessage [5; 4; 3; 2; 1]%Z))
           (snd (setMessages
                   (VArray (map Message_value (map sampleMessage [5; 4; 3; 2; 1]%Z)))
                   (mount emptyStore (ticking 1642680300000)))));
    reflexivity.
Defined.

(** C6 as stated fails: the write rejects and [saveMessagesToStorage] does
    not throw to its caller. *)
Lemma C6_counterexample :
  let e := StorageError (js "Storage write error") in
  let w := mount (readOnlyStore e) (frozen 0) in
  AsyncStorage.setItem_rejects (storage w)
    (length (AsyncStorage.setItem_calls (storage w))) = Some e /\
  fst (saveMessagesToStorage (VArray []) w) <> Throw e /\
  fst (saveMessagesToStorage (VArray []) w) = Normal tt.
Proof. cbn zeta. split; [reflexivity|]. split; [discriminate | reflexivity]. Qed.

Lemma C6_write_failure_logged_witness :
  let e := StorageError (js "Storage write error") in
  let w := mount (readOnlyStore e) (frozen 0) in
  console (snd (saveMessagesToStorage (VArray []) w))
    = [(js "Error saving messages:", e)] /\
  AsyncStorage.setItem_calls (storage (snd (saveMessagesToStorage (VArray []) w)))
    = [(MESSAGES_STORAGE_KEY, js "[]")].
Proof.
  cbn zeta.
  destruct (C6_write_failure_logged (VArray [])
              (mount (readOnlyStore (StorageError (js "Storage write error")))
                     (frozen 0))
              (StorageError (js "Storage write error")) eq_refl)
    as (_ & Hc & Hs & _).
  split; [exact Hc | exact Hs].
Defined.

(** C8 as stated fails: two valid inserts within one millisecond leave two
    items with the same key in the cache. *)
Lemma C8_counterexample :
  let inputs := [js "a"; js "b"] in
  Forall (fun input => isValid input = true) inputs /\
  exists cache,
    messages (sendAll inputs (mount emptyStore (frozen 1642680000000)))
      = VArray cache /\
    ~ NoDup (map keyExtractor cache).
Proof.
  cbn zeta. split; [repeat constructor|].
  eexists. split; [vm_compute; reflexivity|].
  intros H. apply NoDup_cons_1_1 in H. apply H. left.
Qed.

Lemma C8_ids_distinct_when_clock_advances_witness :
  let inputs := [js "a"; js "b"; js "c"] in
  exists cache,
    messages (sendAll inputs (mount emptyStore (ticking 1642680000000)))
      = VArray cache /\
    NoDup (map keyExtractor cache).
Proof.
  cbn zeta.
  apply (C8_ids_distinct_when_clock_advances [js "a"; js "b"; js "c"]
           (mount emptyStore (ticking 1642680000000))).
  - repeat constructor.
  - reflexivity.
  - intros i j _ _. unfold ticking. cbn [now mount clock_reads]. lia.
Defined.

(** * Further properties of the component *)

(** X1. When the read from the store rejects, loading completes normally:
    the rejection is on the console, the cache and the stored items are as
    before and the loading flag is cleared; a freshly mounted component ends
    with an empty cache whatever the store holds. *)
Theorem X1_read_failure_recovered :
  (forall w e,
     AsyncStorage.getItem_rejects (storage w)
       (AsyncStorage.getItem_calls (storage w)) = Some e ->
     let w' := snd (loadMessagesFromStorage w) in
     fst (loadMessagesFromStorage w) = Normal tt /\
     messages w' = messages w /\
     loading w' = false /\
     console w' = (js "Error loading messages:", e) :: console w /\
     AsyncStorage.items (storage w') = AsyncStorage.items (storage w)) /\
  (forall st clock e,
     AsyncStorage.getItem_rejects st (AsyncStorage.getItem_calls st) = Some e ->
     messages (startup st clock) = VArray []).
Proof.
  assert (H : forall w e,
     AsyncStorage.getItem_rejects (storage w)
       (AsyncStorage.getItem_calls (storage w)) = Some e ->
     let w' := snd (loadMessagesFromStorage w) in
     fst (loadMessagesFromStorage w) = Normal tt /\
     messages w' = messages w /\
     loading w' = false /\
     console w' = (js "Error loading messages:", e) :: console w /\
     AsyncStorage.items (storage w') = AsyncStorage.items (storage w)).
  { intros w e He. cbn zeta.
    pose proof (loadMessagesFromStorage_spec w) as L. cbn zeta in L.
    rewrite He in L. destruct L as (L1 & L2 & L3 & _ & L5 & L6).
    repeat split; assumption. }
  split; [exact H|].
  intros st clock e He. unfold startup.
  now destruct (H (mount st clock) e He) as (_ & -> & _).
Qed.

(** X2. A stored empty string counts as no data: the guard on the stored
    string comes before [JSON.parse], so nothing is parsed or logged and the
    cache is as before, although the empty string is not JSON. *)
Theorem X2_empty_string_is_no_data :
  forall w,
    AsyncStorage.getItem_rejects (storage w)
      (AsyncStorage.getItem_calls (storage w)) = None ->
    AsyncStorage.items (storage w) !! MESSAGES_STORAGE_KEY = Some [] ->
    let w' := snd (loadMessagesFromStorage w) in
    messages w' = messages w /\ console w' = console w /\
    loading w' = false /\ JSON.parse [] = None.
Proof.
  intros w Hr Hs. cbn zeta.
  pose proof (loadMessagesFromStorage_spec w) as L. cbn zeta in L.
  rewrite Hr, Hs in L. cbn in L. destruct L as (_ & L2 & _ & _ & L5 & L6).
  repeat split; assumption.
Qed.

(** X3. Loading only reads: it makes one [getItem] call and no [setItem]
    call, and leaves the stored items, the input field, the dialogs and the
    clock as they were. *)
Theorem X3_load_only_reads :
  forall w,
    let w' := snd (loadMessagesFromStorage w) in
    AsyncStorage.getItem_calls (storage w')
      = S (AsyncStorage.getItem_calls (storage w)) /\
    AsyncStorage.setItem_calls (storage w')
      = AsyncStorage.setItem_calls (storage w) /\
    AsyncStorage.items (storage w') = AsyncStorage.items (storage w) /\
    newMessage w' = newMessage w /\ alerts w' = alerts w /\
    clock_reads w' = clock_reads w.
Proof.
  intros w. cbn zeta.
  pose proof (loadMessagesFromStorage_spec w) as L. cbn zeta in L.
  destruct L as (_ & _ & L3 & L4 & _).
  destruct (loadMessagesFromStorage_frame w) as (F1 & F2 & _ & F4 & _ & _ & F7).
  repeat split; assumption.
Qed.

(** X4. The loading flag is set when the component mounts, cleared by the
    effect that loads the cache, and never set again by any run of sends. *)
Theorem X4_loading_cleared_for_good :
  forall st clock inputs,
    loading (mount st clock) = true /\
    loading (startup st clock) = false /\
    loading (sendAll inputs (startup st clock)) = false.
Proof.
  intros st clock inputs.
  assert (H : loading (startup st clock) = false).
  { unfold startup.
    pose proof (loadMessagesFromStorage_spec (mount st clock)) as L.
    cbn zeta in L. now destruct L as (_ & L2 & _). }
  split; [reflexivity|]. split; [exact H|].
  destruct (sendAll_frame inputs (startup st clock)) as (-> & _). exact H.
Qed.

(** X5. While the cache is an array, no send throws, whatever the input and
    whether or not the write rejects, and the cache stays an array: after any
    run of sends the next send completes normally. *)
Theorem X5_handlers_complete_on_array :
  forall inputs input old w,
    messages w = VArray old ->
    fst (send input (sendAll inputs w)) = Normal tt /\
    exists cache, messages (sendAll inputs w) = VArray cache.
Proof.
  intros inputs input old w Hm.
  destruct (sendAll_array inputs old w Hm) as (cache & Hc & _). split.
  - now destruct (send_array_step input cache _ Hc) as (? & _).
  - now exists cache.
Qed.

(** X6. When the cache is neither an array nor a string, an accepted input
    makes [addMessage] throw a TypeError at the spread: the cache and the
    store are as before and the input field is not cleared.  No run of sends
    gets out of this state; a stored text that parses to such a value puts
    the component into it at startup. *)
Theorem X6_not_iterable_cache_is_stuck :
  (forall input w,
     isValid input = true -> iterable (messages w) = false ->
     let w' := snd (send input w) in
     fst (send input w) = Throw TypeError /\
     messages w' = messages w /\ storage w' = storage w /\
     newMessage w' = input) /\
  (forall inputs w,
     iterable (messages w) = false ->
     messages (sendAll inputs w) = messages w /\
     storage (sendAll inputs w) = storage w) /\
  (forall st clock stored v inputs,
     AsyncStorage.getItem_rejects st (AsyncStorage.getItem_calls st) = None ->
     AsyncStorage.items st !! MESSAGES_STORAGE_KEY = Some stored ->
     JSON.parse stored = Some v -> iterable v = false ->
     messages (sendAll inputs (startup st clock)) = v).
Proof.
  split; [|split].
  - intros input w Hv Hi. cbn zeta.
    rewrite send_not_iterable; [now cbn | exact Hv |].
    destruct (messages w); try exact I; discriminate Hi.
  - intros inputs w Hi.
    now destruct (sendAll_not_iterable inputs w Hi) as (? & ? & _).
  - intros st clock stored v inputs Hr Hs Hp Hi.
    assert (Hm : messages (startup st clock) = v)
      by (unfold startup; now apply (load_parsed _ stored)).
    destruct (sendAll_not_iterable inputs (startup st clock)) as (-> & _);
      [now rewrite Hm | exact Hm].
Qed.

(** X7. The bound on the cache is an invariant of sending: a cache of at
    most [MAX_MESSAGES] entries stays so under any run of sends, and a longer
    array is within the bound after the first accepted input. *)
Theorem X7_cache_stays_bounded :
  forall inputs old w,
    messages w = VArray old ->
    exists cache,
      messages (sendAll inputs w) = VArray cache /\
      ((length old <= MAX_MESSAGES)%nat -> (length cache <= MAX_MESSAGES)%nat) /\
      ((1 <= countValid inputs)%nat -> (length cache <= MAX_MESSAGES)%nat).
Proof. intros inputs old w Hm. now apply sendAll_array. Qed.

(** X8. A run of sends on an array calls [setItem] once for each accepted
    input and not at all for a rejected one, always under the key of the
    component; the newest call carries the serialisation of the cache. *)
Theorem X8_one_write_per_accepted_input :
  forall inputs old w,
    messages w = VArray old ->
    exists calls,
      AsyncStorage.setItem_calls (storage (sendAll inputs w))
        = calls ++ AsyncStorage.setItem_calls (storage w) /\
      length calls = countValid inputs /\
      Forall (fun call => fst call = MESSAGES_STORAGE_KEY) calls /\
      ((1 <= countValid inputs)%nat ->
       exists rest,
         calls = (MESSAGES_STORAGE_KEY,
                  JSON.stringify (messages (sendAll inputs w))) :: rest).
Proof. intros inputs old w Hm. now apply (sendAll_calls inputs old). Qed.

(** X9. The component touches one key only: whatever else the store holds
    is the same after startup and any run of sends. *)
Theorem X9_other_keys_untouched :
  forall st clock inputs k,
    k <> MESSAGES_STORAGE_KEY ->
    AsyncStorage.items (storage (sendAll inputs (startup st clock))) !! k
    = AsyncStorage.items st !! k.
Proof.
  intros st clock inputs k Hk.
  destruct (sendAll_frame inputs (startup st clock))
    as (_ & _ & _ & _ & _ & F & _).
  rewrite (F k Hk). unfold startup.
  pose proof (loadMessagesFromStorage_spec (mount st clock)) as L.
  cbn zeta in L. destruct L as (_ & _ & L3 & _). now rewrite L3.
Qed.

(** X10. While no write rejects, a run of sends on an array with at least
    one accepted input leaves the store holding the serialisation of the
    cache, and logs nothing. *)
Theorem X10_store_in_sync :
  forall inputs old w,
    messages w = VArray old ->
    (forall n, AsyncStorage.setItem_rejects (storage w) n = None) ->
    (1 <= countValid inputs)%nat ->
    AsyncStorage.items (storage (sendAll inputs w)) !! MESSAGES_STORAGE_KEY
      = Some (JSON.stringify (messages (sendAll inputs w))) /\
    console (sendAll inputs w) = console w.
Proof.
  intros inputs old w Hm Hok Hn. split.
  - now apply (sendAll_in_sync inputs old).
  - now apply (sendAll_quiet inputs old).
Qed.

(** X11. What was sent survives a restart.  After a run of sends from an
    empty cache with at least one accepted input, no rejected write and
    clock readings that are safe integers, a component mounted on the same
    store loads the very cache the first one ended with. *)
Theorem X11_restart_round_trip :
  forall inputs w clock',
    messages w = VArray [] ->
    (forall n, AsyncStorage.setItem_rejects (storage w) n = None) ->
    AsyncStorage.getItem_rejects (storage w)
      (AsyncStorage.getItem_calls (storage w)) = None ->
    (forall n, (clock_reads w <= n < clock_reads w + 2 * length inputs)%nat ->
               isSafeInteger (now w n) = true) ->
    (1 <= countValid inputs)%nat ->
    messages (startup (storage (sendAll inputs w)) clock')
    = messages (sendAll inputs w).
Proof.
  intros inputs w clock' Hm Hok Hget Hsafe Hn.
  pose proof (sendAll_in_sync inputs [] w Hm Hok Hn) as Hsync.
  destruct (sendAll_frame inputs w) as (_ & _ & Hgr & Hgc & _).
  rewrite (sendAll_from_empty inputs w Hm) in Hsync |- *.
  unfold startup.
  eapply (load_parsed (mount (storage (sendAll inputs w)) clock')).
  - cbn [mount storage]. now rewrite Hgr, Hgc.
  - cbn [mount storage]. exact Hsync.
  - apply parse_stringify_MessageCache. apply Forall_take_rev.
    now apply created_wellFormed.
Qed.

(** X12. A message whose write rejected is lost on restart.  When the store
    holds the serialisation of the cache and the write of a valid insert
    rejects, the cache in memory has the new message in front, and a
    component mounted on the same store loads the cache as it was before
    the insert. *)
Theorem X12_failed_write_lost_on_restart :
  forall input ms w e clock',
    isValid input = true ->
    messages w = MessageCache_value ms ->
    Forall wellFormed ms ->
    AsyncStorage.items (storage w) !! MESSAGES_STORAGE_KEY
      = Some (JSON.stringify (MessageCache_value ms)) ->
    AsyncStorage.setItem_rejects (storage w)
      (length (AsyncStorage.setItem_calls (storage w))) = Some e ->
    AsyncStorage.getItem_rejects (storage w)
      (AsyncStorage.getItem_calls (storage w)) = None ->
    let w' := snd (send input w) in
    messages w' =
      MessageCache_value (take MAX_MESSAGES (freshMessage input w :: ms)) /\
    messages (startup (storage w') clock') = MessageCache_value ms.
Proof.
  intros input ms w e clock' Hv Hm Hwf Hs He Hget. cbn zeta.
  destruct (send_array_step input _ w Hm) as (_ & Hm' & _ & _ & _ & _ & Hval).
  cbn zeta in Hval. rewrite Hv in Hm'. specialize (Hval Hv).
  rewrite He in Hval. destruct Hval as [Hitems _].
  destruct (send_frame input w) as (_ & _ & Hgr & Hgc & _).
  split.
  - rewrite Hm'. unfold MessageCache_value. now rewrite <- firstn_map.
  - unfold startup.
    apply (load_parsed _ (JSON.stringify (MessageCache_value ms))).
    + cbn [mount storage]. now rewrite Hgr, Hgc.
    + cbn [mount storage]. now rewrite Hitems.
    + now apply parse_stringify_MessageCache.
Qed.

(** X13. An input is rejected exactly when every code unit of it is white
    space (the empty input included): such an input opens the dialog and
    leaves the cache alone, any other input opens no dialog. *)
Theorem X13_rejected_iff_blank :
  (forall input w,
     Forall (fun c => isWhiteSpace c = true) input ->
     messages (snd (send input w)) = messages w /\
     alerts (snd (send input w))
       = (js "Error", js "Please enter a message") :: alerts w) /\
  (forall input w,
     ~ Forall (fun c => isWhiteSpace c = true) input ->
     alerts (snd (send input w)) = alerts w).
Proof.
  split.
  - intros input w H. apply isValid_false_iff in H.
    rewrite (send_invalid input w H). now cbn.
  - intros input w H.
    destruct (send_frame input w) as (_ & _ & _ & _ & _ & _ & ->).
    destruct (isValid input) eqn:Hv; [reflexivity|].
    now apply isValid_false_iff in Hv.
Qed.

(** X14. The text of the message that a valid insert puts in front is the
    input without its white-space prefix and suffix: it is not empty and
    neither starts nor ends with white space. *)
Theorem X14_text_is_trimmed :
  forall input old w,
    isValid input = true -> messages w = VArray old ->
    exists m pre post cache,
      messages (snd (send input w)) = VArray (Message_value m :: cache) /\
      input = pre ++ text m ++ post /\
      Forall (fun c => isWhiteSpace c = true) pre /\
      Forall (fun c => isWhiteSpace c = true) post /\
      text m <> [] /\
      (forall c r, text m = c :: r -> isWhiteSpace c = false) /\
      (forall c r, text m = r ++ [c] -> isWhiteSpace c = false).
Proof.
  intros input old w Hv Hm.
  destruct (send_valid_world input old w Hv Hm) as (_ & Hm' & _).
  destruct (trim_spec input) as ((pre & post & E & Hpre & Hpost) & Hh & Hl).
  exists (freshMessage input w), pre, post, (take (MAX_MESSAGES - 1) old).
  split; [exact Hm'|]. cbn [freshMessage text].
  repeat split; try assumption.
  intros Ht. unfold isValid in Hv. now rewrite Ht in Hv.
Qed.

(** X15. With a clock that never goes back, the cache built by a run of
    sends from an empty cache has its timestamps in order, the latest
    first. *)
Theorem X15_timestamps_newest_first :
  forall inputs w,
    (forall i j, (i <= j)%nat -> (now w i <= now w j)%Z) ->
    messages w = VArray [] ->
    exists ms,
      messages (sendAll inputs w) = MessageCache_value ms /\
      newestFirst (map timestamp ms).
Proof.
  intros inputs w Hmono Hm.
  apply (sendAll_newestFirst inputs [] w Hmono Hm); [exact I | constructor].
Qed.

(** X16. A run of sends opens one error dialog for each rejected input and
    none for an accepted one, whatever the cache and the store. *)
Theorem X16_one_dialog_per_rejected_input :
  forall inputs w,
    alerts (sendAll inputs w) =
    repeat (js "Error", js "Please enter a message") (countInvalid inputs)
    ++ alerts w.
Proof.
  intros inputs w.
  now destruct (sendAll_frame inputs w) as (_ & _ & _ & _ & _ & _ & ?).
Qed.

(** X17. Every item of a cache built by a run of sends from an empty cache
    has a string under [id]: [keyExtractor] gives the list a key for each of
    them and throws on none. *)
Theorem X17_items_have_keys :
  forall inputs w,
    messages w = VArray [] ->
    exists cache,
      messages (sendAll inputs w) = VArray cache /\
      Forall (fun item => exists key,
                keyExtractor item = Normal (Some (VString key))) cache.
Proof.
  intros inputs w Hm. rewrite (sendAll_from_empty inputs w Hm).
  eexists. split; [reflexivity|].
  apply Forall_forall. intros item Hin.
  apply list_elem_of_In, in_map_iff in Hin as (m & <- & _).
  exists (id m). apply keyExtractor_Message.
Qed.


(** X19. The previous session stays behind the new one.  When the store
    holds the serialisation of at most [MAX_MESSAGES] well-formed messages
    and the read resolves, the cache after startup and a run of sends is the
    first [MAX_MESSAGES] of the messages built by the run, newest first,
    followed by the stored ones. *)
Theorem X19_loaded_messages_follow_new_ones :
  forall st clock ms inputs,
    AsyncStorage.getItem_rejects st (AsyncStorage.getItem_calls st) = None ->
    AsyncStorage.items st !! MESSAGES_STORAGE_KEY
      = Some (JSON.stringify (MessageCache_value ms)) ->
    Forall wellFormed ms ->
    (length ms <= MAX_MESSAGES)%nat ->
    messages (sendAll inputs (startup st clock)) =
    MessageCache_value
      (take MAX_MESSAGES (rev (created clock 0 inputs) ++ ms)).
Proof.
  intros st clock ms inputs Hr Hs Hwf Hlen.
  assert (Hm : messages (startup st clock) = MessageCache_value ms).
  { unfold startup.
    apply (load_parsed _ (JSON.stringify (MessageCache_value ms))); auto.
    now apply parse_stringify_MessageCache. }
  destruct (loadMessagesFromStorage_frame (mount st clock))
    as (_ & _ & Hn & Hc & _).
  fold (startup st clock) in Hn, Hc. cbn [mount now clock_reads] in Hn, Hc.
  rewrite (sendAll_messages inputs _ _ Hm) by (now rewrite length_map).
  rewrite Hn, Hc. unfold MessageCache_value.
  now rewrite <- firstn_map, map_app, map_rev.
Qed.

(** * The further properties at sample inputs *)

Lemma X1_read_failure_recovered_witness :
  let e := StorageError (js "Storage read error") in
  let st := unreadableStore
              (JSON.stringify (MessageCache_value [sampleMessage 1])) e in
  AsyncStorage.getItem_rejects st (AsyncStorage.getItem_calls st) = Some e /\
  messages (startup st (frozen 0)) = VArray [].
Proof.
  cbn zeta. split; [reflexivity|].
  apply (proj2 X1_read_failure_recovered
           (unreadableStore
              (JSON.stringify (MessageCache_value [sampleMessage 1]))
              (StorageError (js "Storage read error")))
           (frozen 0) (StorageError (js "Storage read error"))).
  reflexivity.
Defined.

Lemma X2_empty_string_is_no_data_witness :
  let w := mount (storeWith []) (frozen 0) in
  messages (snd (loadMessagesFromStorage w)) = messages w /\
  console (snd (loadMessagesFromStorage w)) = console w /\
  loading (snd (loadMessagesFromStorage w)) = false /\
  JSON.parse [] = None.
Proof.
  cbn zeta. apply (X2_empty_string_is_no_data (mount (storeWith []) (frozen 0))).
  - reflexivity.
  - vm_compute. reflexivity.
Defined.

Lemma X5_handlers_complete_on_array_witness :
  let w := mount (readOnlyStore (StorageError (js "Storage full")))
                 (ticking 1642680000000) in
  fst (send (js "b") (sendAll [js "a"; js "  "] w)) = Normal tt /\
  exists cache, messages (sendAll [js "a"; js "  "] w) = VArray cache.
Proof.
  cbn zeta.
  apply (X5_handlers_complete_on_array [js "a"; js "  "] (js "b") []
           (mount (readOnlyStore (StorageError (js "Storage full")))
                  (ticking 1642680000000))).
  reflexivity.
Defined.

Lemma X6_not_iterable_cache_is_stuck_witness :
  messages (sendAll [js "hello"] (startup (storeWith (js "42")) (frozen 0)))
  = VNumber 42.
Proof.
  apply (proj2 (proj2 X6_not_iterable_cache_is_stuck)
           (storeWith (js "42")) (frozen 0) (js "42") (VNumber 42) [js "hello"]).
  - reflexivity.
  - vm_compute. reflexivity.
  - vm_compute. reflexivity.
  - reflexivity.
Defined.

Lemma X7_cache_stays_bounded_witness :
  let old := map Message_value (map sampleMessage [1; 2; 3; 4; 5; 6; 7]%Z) in
  let w := snd (setMessages (VArray old) (mount emptyStore (frozen 0))) in
  exists cache,
    messages (sendAll [js "x"] w) = VArray cache /\
    ((length old <= MAX_MESSAGES)%nat -> (length cache <= MAX_MESSAGES)%nat) /\
    ((1 <= countValid [js "x"])%nat -> (length cache <= MAX_MESSAGES)%nat).
Proof.
  cbn zeta.
  apply (X7_cache_stays_bounded [js "x"]
           (map Message_value (map sampleMessage [1; 2; 3; 4; 5; 6; 7]%Z))
           (snd (setMessages
                   (VArray (map Message_value
                              (map sampleMessage [1; 2; 3; 4; 5; 6; 7]%Z)))
                   (mount emptyStore (frozen 0))))).
  reflexivity.
Defined.

Lemma X8_one_write_per_accepted_input_witness :
  let inputs := [js "a"; js " "; js "b"] in
  let w := mount emptyStore (ticking 1642680000000) in
  exists calls,
    AsyncStorage.setItem_calls (storage (sendAll inputs w))
      = calls ++ AsyncStorage.setItem_calls (storage w) /\
    length calls = countValid inputs /\
    Forall (fun call => fst call = MESSAGES_STORAGE_KEY) calls /\
    ((1 <= countValid inputs)%nat ->
     exists rest,
       calls = (MESSAGES_STORAGE_KEY,
                JSON.stringify (messages (sendAll inputs w))) :: rest).
Proof.
  cbn zeta.
  apply (X8_one_write_per_accepted_input [js "a"; js " "; js "b"] []
           (mount emptyStore (ticking 1642680000000))).
  reflexivity.
Defined.

Lemma X9_other_keys_untouched_witness :
  js "theme" <> MESSAGES_STORAGE_KEY /\
  AsyncStorage.items
    (storage (sendAll [js "a"; js "b"] (startup sharedStore (frozen 0))))
    !! js "theme"
  = AsyncStorage.items sharedStore !! js "theme".
Proof.
  assert (H : js "theme" <> MESSAGES_STORAGE_KEY)
    by (intros E; vm_compute in E; discriminate E).
  split; [exact H|].
  exact (X9_other_keys_untouched sharedStore (frozen 0) [js "a"; js "b"]
           (js "theme") H).
Defined.

Lemma X10_store_in_sync_witness :
  let inputs := [js "a"; js "b"] in
  let w := mount emptyStore (ticking 1642680000000) in
  AsyncStorage.items (storage (sendAll inputs w)) !! MESSAGES_STORAGE_KEY
    = Some (JSON.stringify (messages (sendAll inputs w))) /\
  console (sendAll inputs w) = console w.
Proof.
  cbn zeta.
  apply (X10_store_in_sync [js "a"; js "b"] []
           (mount emptyStore (ticking 1642680000000))).
  - reflexivity.
  - intros n. reflexivity.
  - vm_compute. lia.
Defined.

Lemma X11_restart_round_trip_witness :
  let inputs := [js "a"; js "b"] in
  let w := mount emptyStore (ticking 1642680000000) in
  messages (startup (storage (sendAll inputs w)) (ticking 1642680060000))
  = messages (sendAll inputs w).
Proof.
  cbn zeta.
  apply (X11_restart_round_trip [js "a"; js "b"]
           (mount emptyStore (ticking 1642680000000))
           (ticking 1642680060000)).
  - reflexivity.
  - intros n. reflexivity.
  - reflexivity.
  - intros n Hn. cbn [mount clock_reads now length] in Hn |- *.
    unfold ticking, isSafeInteger, MAX_SAFE_INTEGER.
    apply andb_true_iff. split; apply Z.leb_le; lia.
  - vm_compute. lia.
Defined.

Lemma X12_failed_write_lost_on_restart_witness :
  let ms := [sampleMessage 1] in
  let e := StorageError (js "Storage full") in
  let w := startup (unwritableStore (JSON.stringify (MessageCache_value ms)) e)
                   (ticking 1642680120000) in
  let w' := snd (send (js "Message 2") w) in
  messages w' =
    MessageCache_value
      (take MAX_MESSAGES (freshMessage (js "Message 2") w :: ms)) /\
  messages (startup (storage w') (frozen 0)) = MessageCache_value ms.
Proof.
  cbn zeta.
  apply (X12_failed_write_lost_on_restart (js "Message 2") [sampleMessage 1]
           (startup
              (unwritableStore
                 (JSON.stringify (MessageCache_value [sampleMessage 1]))
                 (StorageError (js "Storage full")))
              (ticking 1642680120000))
           (StorageError (js "Storage full")) (frozen 0)).
  - reflexivity.
  - vm_compute. reflexivity.
  - repeat constructor.
  - vm_compute. reflexivity.
  - reflexivity.
  - reflexivity.
Defined.

Lemma X13_rejected_iff_blank_witness :
  let w := mount emptyStore (frozen 0) in
  Forall (fun c => isWhiteSpace c = true) [32; 9; 160] /\
  messages (snd (send [32; 9; 160] w)) = messages w /\
  alerts (snd (send [32; 9; 160] w))
    = (js "Error", js "Please enter a message") :: alerts w.
Proof.
  cbn zeta.
  assert (H : Forall (fun c => isWhiteSpace c = true) [32; 9; 160])
    by (repeat constructor).
  split; [exact H|].
  exact (proj1 X13_rejected_iff_blank [32; 9; 160]
           (mount emptyStore (frozen 0)) H).
Defined.

Lemma X14_text_is_trimmed_witness :
  let w := mount emptyStore (ticking 1642680000000) in
  exists m pre post cache,
    messages (snd (send (js "  hi there  ") w))
      = VArray (Message_value m :: cache) /\
    js "  hi there  " = pre ++ text m ++ post /\
    Forall (fun c => isWhiteSpace c = true) pre /\
    Forall (fun c => isWhiteSpace c = true) post /\
    text m <> [] /\
    (forall c r, text m = c :: r -> isWhiteSpace c = false) /\
    (forall c r, text m = r ++ [c] -> isWhiteSpace c = false).
Proof.
  cbn zeta.
  apply (X14_text_is_trimmed (js "  hi there  ") []
           (mount emptyStore (ticking 1642680000000))); reflexivity.
Defined.

Lemma X15_timestamps_newest_first_witness :
  let w := mount emptyStore (ticking 1642680000000) in
  exists ms,
    messages (sendAll [js "a"; js "b"; js "c"] w) = MessageCache_value ms /\
    newestFirst (map timestamp ms).
Proof.
  cbn zeta.
  apply (X15_timestamps_newest_first [js "a"; js "b"; js "c"]
           (mount emptyStore (ticking 1642680000000))).
  - intros i j Hij. cbn [mount now]. unfold ticking. lia.
  - reflexivity.
Defined.

Lemma X17_items_have_keys_witness :
  let w := mount emptyStore (ticking 1642680000000) in
  exists cache,
    messages (sendAll [js "a"; js "b"] w) = VArray cache /\
    Forall (fun item => exists key,
              keyExtractor item = Normal (Some (VString key))) cache.
Proof.
  cbn zeta.
  apply (X17_items_have_keys [js "a"; js "b"]
           (mount emptyStore (ticking 1642680000000))).
  reflexivity.
Defined.


Lemma X19_loaded_messages_follow_new_ones_witness :
  let ms := map sampleMessage [2; 1]%Z in
  let st := storeWith (JSON.stringify (MessageCache_value ms)) in
  let clock := ticking 1642680180000 in
  messages (sendAll [js "Message 3"] (startup st clock)) =
  MessageCache_value
    (take MAX_MESSAGES (rev (created clock 0 [js "Message 3"]) ++ ms)).
Proof.
  cbn zeta.
  apply (X19_loaded_messages_follow_new_ones
           (storeWith (JSON.stringify
                         (MessageCache_value (map sampleMessage [2; 1]%Z))))
           (ticking 1642680180000) (map sampleMessage [2; 1]%Z)
           [js "Message 3"]).
  - reflexivity.
  - vm_compute. reflexivity.
  - repeat constructor.
  - vm_compute. lia.
Defined.
